(** * PAC-RF telemetry ingestion layer

    A shallow embedding of the three components of [src/common] that carry
    decoding logic, and the properties stated about them:

    - [BitStream]  : [bit_parser.c], the MSB-first bit reader;
    - [RingQueue]  : [queue_manager.c], the bounded circular queue;
    - [Nmea]       : [nmea.c], the checksum-guarded sentence decoder.

    Machine integers are integers of [Z] with the wrap-around written out:
    [size_t] is taken as 64 bits wide (LP64), [uint32_t] as 32 bits.  A C
    pointer that may be [NULL] is an [option]; an access outside an array
    is undefined behaviour in C and is the outcome [Undefined] here. *)

From Stdlib Require Import ZArith List Ascii String Lia Bool.
From stdpp Require Import base list strings.

Local Open Scope Z_scope.

(** ** Machine integers and outcomes *)

Definition SIZE_MAX : Z := 2 ^ 64 - 1.

(** Reduction of an arithmetic result to [size_t]. *)
Definition size_t (z : Z) : Z := z mod 2 ^ 64.

(** Reduction of an arithmetic result to [uint32_t]. *)
Definition uint32_t (z : Z) : Z := z mod 2 ^ 32.

(** What a call does: it returns, or it runs into undefined behaviour
    (an array access outside the object). *)
Inductive outcome (A : Type) : Type :=
| Returns (a : A)
| Undefined.

Arguments Returns {A} a.
Arguments Undefined {A}.

(** ** bit_parser.c *)

Module BitStream.

Record BitParser : Type := mkBitParser {
  data : list Z;        (* const uint8_t *data : the bytes of the buffer *)
  bit_length : Z;       (* size_t *)
  bit_pos : Z           (* size_t *)
}.

Definition set_bit_pos (parser : BitParser) (pos : Z) : BitParser :=
  {| data := data parser; bit_length := bit_length parser; bit_pos := pos |}.

Definition bit_parser_init (buf : list Z) (len : Z) : BitParser :=
  {| data := buf; bit_length := len; bit_pos := 0 |}.

(** The body of the [for] loop of [bit_parser_read], run [steps] times from
    loop counter [i] and accumulator [value]. *)
Fixpoint read_loop (parser : BitParser) (steps : nat) (i value : Z)
  : outcome Z :=
  match steps with
  | O => Returns value
  | S steps' =>
      let byte_idx := size_t (bit_pos parser + i) / 8 in
      let bit_idx := 7 - size_t (bit_pos parser + i) mod 8 in
      match data parser !! Z.to_nat byte_idx with
      | None => Undefined
      | Some b =>
          let bit := Z.land (Z.shiftr b bit_idx) 1 in
          read_loop parser steps' (i + 1)
                    (Z.lor (uint32_t (Z.shiftl value 1)) bit)
      end
  end.

Definition bit_parser_read (parser : BitParser) (num_bits : Z)
  : outcome (Z * BitParser) :=
  if (num_bits =? 0) || (32 <? num_bits) then Returns (0, parser)
  else if bit_length parser <? size_t (bit_pos parser + num_bits)
  then Returns (0, parser)
  else
    match read_loop parser (Z.to_nat num_bits) 0 0 with
    | Undefined => Undefined
    | Returns value =>
        Returns (value,
                 set_bit_pos parser (size_t (bit_pos parser + num_bits)))
    end.

Definition bit_parser_skip (parser : BitParser) (num_bits : Z) : BitParser :=
  if size_t (bit_pos parser + num_bits) <=? bit_length parser
  then set_bit_pos parser (size_t (bit_pos parser + num_bits))
  else set_bit_pos parser (bit_length parser).

Definition bit_parser_reset (parser : BitParser) : BitParser :=
  set_bit_pos parser 0.

(** The indexing rule of the wire format: absolute bit [i] of a buffer is
    bit [7 - i mod 8] of byte [i / 8]. *)
Definition stream_bit (buf : list Z) (i : Z) : bool :=
  match buf !! Z.to_nat (i / 8) with
  | Some b => Z.testbit b (7 - i mod 8)
  | None => false
  end.

(** A parser as the interface types allow it: both fields are [size_t]
    values and the cursor is inside the stream. *)
Definition parser_ok (parser : BitParser) : Prop :=
  0 <= bit_pos parser <= bit_length parser /\ bit_length parser <= SIZE_MAX.

(** The caller's obligation at [bit_parser_init]: the buffer holds the
    bits that [bit_length] announces. *)
Definition buffer_covers (parser : BitParser) : Prop :=
  bit_length parser <= 8 * Z.of_nat (length (data parser)).

(** *** Sessions on one parser *)

Inductive parser_op : Type :=
| Read (num_bits : Z)
| Skip (num_bits : Z)
| Reset.

Definition parser_step (parser : BitParser) (o : parser_op)
  : outcome BitParser :=
  match o with
  | Read n =>
      match bit_parser_read parser n with
      | Returns (_, parser') => Returns parser'
      | Undefined => Undefined
      end
  | Skip n => Returns (bit_parser_skip parser n)
  | Reset => Returns (bit_parser_reset parser)
  end.

Fixpoint parser_run (parser : BitParser) (ops : list parser_op)
  : outcome BitParser :=
  match ops with
  | [] => Returns parser
  | o :: ops' =>
      match parser_step parser o with
      | Returns parser' => parser_run parser' ops'
      | Undefined => Undefined
      end
  end.

(** Successive calls of [bit_parser_read], one for each width. *)
Fixpoint read_fields (parser : BitParser) (widths : list Z)
  : outcome (list Z * BitParser) :=
  match widths with
  | [] => Returns ([], parser)
  | w :: widths' =>
      match bit_parser_read parser w with
      | Undefined => Undefined
      | Returns (v, parser') =>
          match read_fields parser' widths' with
          | Undefined => Undefined
          | Returns (vs, parser'') => Returns (v :: vs, parser'')
          end
      end
  end.

(** The [n] low bits of [v], most significant first. *)
Definition bits_msb (n v : Z) : list bool :=
  map (fun j => Z.testbit v (n - 1 - Z.of_nat j)) (seq 0 (Z.to_nat n)).

(** The [n] bits of a buffer from absolute index [from] on. *)
Definition stream_bits (buf : list Z) (from n : Z) : list bool :=
  map (fun j => stream_bit buf (from + Z.of_nat j)) (seq 0 (Z.to_nat n)).

Definition sum_widths (widths : list Z) : Z := foldr Z.add 0 widths.

End BitStream.

(** ** queue_manager.c *)

Module RingQueue.

Record QueueItem : Type := mkQueueItem {
  data : list Z;        (* char data[256] *)
  length : Z            (* size_t *)
}.

(** [sizeof (QueueItem)]: 256 bytes of payload and a [size_t], on a
    machine whose [size_t] has 64 bits. *)
Definition sizeof_QueueItem : Z := 264.

(** [items] is [None] for a NULL pointer, and else the array that the
    pointer gives access to: the whole slots of the block it points to. *)
Record Queue : Type := mkQueue {
  items : option (list QueueItem);
  capacity : Z;         (* size_t *)
  head : Z;             (* size_t *)
  tail : Z;             (* size_t *)
  count : Z             (* size_t *)
}.

(** [malloc (bytes)] over a free store [heap], given as the memory that
    it can still hand out, cut into slots with whatever they contain.  The
    call fails when the store has fewer than [bytes] bytes; otherwise it
    returns a block of [bytes] bytes, which as an array of [QueueItem] has
    [bytes / sizeof (QueueItem)] whole slots.  A request of less than one
    item, zero bytes included, is answered with a block that is not NULL
    and has no slot. *)
Definition malloc_items (heap : list QueueItem) (bytes : Z)
  : option (list QueueItem) :=
  if sizeof_QueueItem * Z.of_nat (List.length heap) <? bytes then None
  else Some (take (Z.to_nat (bytes / sizeof_QueueItem)) heap).

Definition queue_is_full (q : option Queue) : bool :=
  match q with
  | Some s => count s =? capacity s
  | None => false
  end.

Definition queue_is_empty (q : option Queue) : bool :=
  match q with
  | Some s => count s =? 0
  | None => true
  end.

(** The byte count [sizeof (QueueItem) * capacity] is a [size_t] product:
    it wraps. *)
Definition queue_init (q : option Queue) (cap : Z) (heap : list QueueItem)
  : bool * option Queue :=
  match q with
  | None => (false, None)
  | Some s =>
      if cap =? 0 then (false, q)
      else
        match malloc_items heap (size_t (sizeof_QueueItem * cap)) with
        | None =>
            (false, Some {| items := None; capacity := capacity s;
                            head := head s; tail := tail s;
                            count := count s |})
        | Some slots =>
            (true, Some {| items := Some slots; capacity := cap;
                           head := 0; tail := 0; count := 0 |})
        end
  end.

Definition queue_destroy (q : option Queue) : option Queue :=
  match q with
  | None => None
  | Some s =>
      match items s with
      | None => q
      | Some _ => Some {| items := None; capacity := 0;
                          head := 0; tail := 0; count := 0 |}
      end
  end.

Definition queue_enqueue (q : option Queue) (item : option QueueItem)
  : outcome (bool * option Queue) :=
  match q, item with
  | Some s, Some it =>
      if queue_is_full q then Returns (false, q)
      else
        match items s with
        | Some a =>
            if (Z.to_nat (tail s) <? List.length a)%nat
                 && negb (capacity s =? 0)
            then Returns (true,
                          Some {| items := Some (<[Z.to_nat (tail s) := it]> a);
                                  capacity := capacity s;
                                  head := head s;
                                  tail := size_t (tail s + 1) mod capacity s;
                                  count := size_t (count s + 1) |})
            else Undefined
        | None => Undefined
        end
  | _, _ => Returns (false, q)
  end.

(** [out_item] is the caller's variable: its content before the call, and
    in the result its content after it. *)
Definition queue_dequeue (q : option Queue) (out_item : option QueueItem)
  : outcome (bool * option Queue * option QueueItem) :=
  match q, out_item with
  | Some s, Some _ =>
      if queue_is_empty q then Returns (false, q, out_item)
      else
        match items s with
        | Some a =>
            match a !! Z.to_nat (head s) with
            | Some it =>
                if capacity s =? 0 then Undefined
                else Returns (true,
                              Some {| items := items s;
                                      capacity := capacity s;
                                      head := size_t (head s + 1)
                                                mod capacity s;
                                      tail := tail s;
                                      count := size_t (count s - 1) |},
                              Some it)
            | None => Undefined
            end
        | None => Undefined
        end
  | _, _ => Returns (false, q, out_item)
  end.

(** *** Runs of a producer and a consumer *)

Inductive op : Type :=
| Enq (it : QueueItem)
| Deq.

(** What the caller sees of an operation. *)
Inductive obs : Type :=
| Enqueued (it : QueueItem) (ok : bool)
| Dequeued (r : option QueueItem).

(** One call on the queue [s]; a dequeue writes into a variable that holds
    [scratch] before the call. *)
Definition step (scratch : QueueItem) (s : Queue) (o : op)
  : outcome (obs * Queue) :=
  match o with
  | Enq it =>
      match queue_enqueue (Some s) (Some it) with
      | Returns (ok, Some s') => Returns (Enqueued it ok, s')
      | _ => Undefined
      end
  | Deq =>
      match queue_dequeue (Some s) (Some scratch) with
      | Returns (true, Some s', Some it) => Returns (Dequeued (Some it), s')
      | Returns (false, Some s', _) => Returns (Dequeued None, s')
      | _ => Undefined
      end
  end.

Fixpoint run (scratch : QueueItem) (s : Queue) (ops : list op)
  : outcome (list obs * Queue) :=
  match ops with
  | [] => Returns ([], s)
  | o :: ops' =>
      match step scratch s o with
      | Undefined => Undefined
      | Returns (e, s') =>
          match run scratch s' ops' with
          | Undefined => Undefined
          | Returns (tr, s'') => Returns (e :: tr, s'')
          end
      end
  end.

(** The items of the enqueues that succeeded, and the items that the
    dequeues delivered, each in the order of the calls. *)
Fixpoint accepted (tr : list obs) : list QueueItem :=
  match tr with
  | [] => []
  | Enqueued it true :: tr' => it :: accepted tr'
  | _ :: tr' => accepted tr'
  end.

Fixpoint delivered (tr : list obs) : list QueueItem :=
  match tr with
  | [] => []
  | Dequeued (Some it) :: tr' => it :: delivered tr'
  | _ :: tr' => delivered tr'
  end.

(** *** The queue of the specification: a list with a bound

    Written from the specification: a FIFO of at most [cap] items, where
    enqueue fails when full and dequeue fails when empty. *)
Definition fifo_step (cap : Z) (l : list QueueItem) (o : op)
  : obs * list QueueItem :=
  match o with
  | Enq it =>
      if Z.of_nat (List.length l) <? cap
      then (Enqueued it true, l ++ [it])
      else (Enqueued it false, l)
  | Deq =>
      match l with
      | [] => (Dequeued None, [])
      | it :: l' => (Dequeued (Some it), l')
      end
  end.

Fixpoint fifo_run (cap : Z) (l : list QueueItem) (ops : list op)
  : list obs * list QueueItem :=
  match ops with
  | [] => ([], l)
  | o :: ops' =>
      let (e, l') := fifo_step cap l o in
      let (tr, l'') := fifo_run cap l' ops' in
      (e :: tr, l'')
  end.

(** The circular buffer [s] holds the list [l]: slot [(head + k) mod
    capacity] is the [k]-th oldest item. *)
Definition holds (s : Queue) (l : list QueueItem) : Prop :=
  0 < capacity s <= SIZE_MAX /\
  0 <= head s < capacity s /\
  count s = Z.of_nat (List.length l) /\
  count s <= capacity s /\
  tail s = (head s + count s) mod capacity s /\
  exists a,
    items s = Some a /\
    List.length a = Z.to_nat (capacity s) /\
    forall k : nat, (k < List.length l)%nat ->
      a !! Z.to_nat ((head s + Z.of_nat k) mod capacity s) = l !! k.


(** A one-byte item, for examples. *)
Definition demo_item (n : Z) : QueueItem := mkQueueItem [n] 1.

End RingQueue.

(** ** nmea.c *)

Module Nmea.

(** A C string, as the characters before its terminating NUL. *)
Abbreviation cstring := (list ascii) (only parsing).

Definition lit (s : string) : cstring := list_ascii_of_string s.

(** [(unsigned char) c] *)
Definition uchar (c : ascii) : Z := Z.of_N (N_of_ascii c).

(** The character under a pointer; at the end, the terminator. *)
Definition deref (p : cstring) : ascii :=
  match p with
  | [] => zero
  | c :: _ => c
  end.

Definition hex2uc (c : ascii) : Z :=
  let n := uchar c in
  if (48 <=? n) && (n <=? 57) then n - 48
  else if (65 <=? n) && (n <=? 70) then n - 65 + 10
  else if (97 <=? n) && (n <=? 102) then n - 97 + 10
  else 255.

(** The loop of [checksum_ok], which XORs characters into [cs] until the
    pointer reaches the terminator or a star: the checksum, and where the
    pointer stops. *)
Fixpoint xor_to_star (p : cstring) (cs : Z) : Z * cstring :=
  match p with
  | [] => (cs, [])
  | c :: p' =>
      if Ascii.eqb c "*" then (cs, p)
      else xor_to_star p' (Z.lxor cs (uchar c))
  end.

(** When the line ends right after the star, the second character read
    after it lies one past the terminator; it is read as NUL here, and the
    result does not depend on it because [hi] is already 0xFF. *)
Definition checksum_ok (line : option cstring) : bool :=
  match line with
  | Some (c0 :: p0) =>
      if negb (Ascii.eqb c0 "$") then false
      else
        let (cs, p) := xor_to_star p0 0 in
        match p with
        | [] => false
        | _ :: after =>
            let hi := hex2uc (deref after) in
            let lo := hex2uc (deref (List.tl after)) in
            if (hi =? 255) || (lo =? 255) then false
            else cs =? Z.lor (Z.shiftl hi 4) lo
        end
  | _ => false
  end.

(** Doubles are not computed: a [double] is the expression that the code
    evaluates, over the literals, [atof] and the operations it uses. *)
Inductive double : Type :=
| Dlit (z : Z)
| Datof (s : cstring)
| Dadd (x y : double)
| Ddiv (x y : double)
| Dneg (x : double).

(** [strchr (s, c) - s], or [strlen (s)] when [c] does not occur. *)
Fixpoint index_or_length (c : ascii) (s : cstring) : Z :=
  match s with
  | [] => 0
  | a :: s' => if Ascii.eqb a c then 0 else 1 + index_or_length c s'
  end.

Definition hemisphere_negates (hem : option cstring) : bool :=
  match hem with
  | Some h => Ascii.eqb (deref h) "S" || Ascii.eqb (deref h) "W"
  | None => false
  end.

Definition nmea_deg_to_decimal (ddmm hem : option cstring) : double :=
  match ddmm with
  | None | Some [] => Dlit 0
  | Some s =>
      let deg_len := index_or_length "." s - 2 in
      if (deg_len <=? 0) || (3 <? deg_len) then Dlit 0
      else
        let d := take (Z.to_nat deg_len) s in
        let deg := Datof d in
        let min := Datof (drop (Z.to_nat deg_len) s) in
        let val := Dadd deg (Ddiv min (Dlit 60)) in
        if hemisphere_negates hem then Dneg val else val
  end.

(** [atoi], as glibc has it: [(int) strtol (s, NULL, 10)]. *)
Definition isspace (c : ascii) : bool :=
  let n := uchar c in (n =? 32) || ((9 <=? n) && (n <=? 13)).

Definition isdigit (c : ascii) : bool :=
  let n := uchar c in (48 <=? n) && (n <=? 57).

Fixpoint skip_spaces (s : cstring) : cstring :=
  match s with
  | c :: s' => if isspace c then skip_spaces s' else s
  | [] => []
  end.

Fixpoint digits_value (s : cstring) (acc : Z) : Z :=
  match s with
  | c :: s' =>
      if isdigit c then digits_value s' (10 * acc + (uchar c - 48)) else acc
  | [] => acc
  end.

Definition LONG_MAX : Z := 2 ^ 63 - 1.
Definition LONG_MIN : Z := - 2 ^ 63.

Definition strtol10 (s : cstring) : Z :=
  let s1 := skip_spaces s in
  let v :=
    match s1 with
    | c :: r =>
        if Ascii.eqb c "-" then - digits_value r 0
        else if Ascii.eqb c "+" then digits_value r 0
        else digits_value s1 0
    | [] => 0
    end in
  Z.max LONG_MIN (Z.min LONG_MAX v).

(** Conversion of a [long] to [int]: the low 32 bits, signed. *)
Definition to_int (z : Z) : Z := (z + 2 ^ 31) mod 2 ^ 32 - 2 ^ 31.

Definition atoi (s : cstring) : Z := to_int (strtol10 s).

(** [strtok] with the delimiter set [","], on the part of the buffer that
    is still to be scanned: it skips the commas in front, and returns the
    characters up to the next comma together with what follows that comma;
    [None] is the NULL it returns when nothing but commas is left. *)
Fixpoint skip_commas (s : cstring) : cstring :=
  match s with
  | c :: s' => if Ascii.eqb c "," then skip_commas s' else s
  | [] => []
  end.

Fixpoint scan_token (s : cstring) : cstring * cstring :=
  match s with
  | [] => ([], [])
  | c :: s' =>
      if Ascii.eqb c "," then ([], s')
      else let (t, r) := scan_token s' in (c :: t, r)
  end.

Definition strtok (s : cstring) : option (cstring * cstring) :=
  match skip_commas s with
  | [] => None
  | s1 => Some (scan_token s1)
  end.

(** The loop [for (t = strtok (p, ","); t && n < 16; t = strtok (NULL, ","))
    f[n++] = t;] with [room] slots left in [f]. *)
Fixpoint tokenize (room : nat) (s : cstring) : list cstring :=
  match room with
  | O => []
  | S room' =>
      match strtok s with
      | None => []
      | Some (t, rest) => t :: tokenize room' rest
      end
  end.

Record nmea_info_t : Type := mk_nmea_info {
  has_fix : bool;
  fix_quality : Z;      (* int *)
  sats : Z;             (* int *)
  lat_deg : double;
  lon_deg : double;
  time_utc : cstring    (* char time_utc[16] *)
}.

Definition set_time_utc (o : nmea_info_t) (t : cstring) : nmea_info_t :=
  {| has_fix := has_fix o; fix_quality := fix_quality o; sats := sats o;
     lat_deg := lat_deg o; lon_deg := lon_deg o; time_utc := t |}.

Definition set_quality (o : nmea_info_t) (q : Z) : nmea_info_t :=
  {| has_fix := 0 <? q; fix_quality := q; sats := sats o;
     lat_deg := lat_deg o; lon_deg := lon_deg o; time_utc := time_utc o |}.

Definition set_has_fix (o : nmea_info_t) (b : bool) : nmea_info_t :=
  {| has_fix := b; fix_quality := fix_quality o; sats := sats o;
     lat_deg := lat_deg o; lon_deg := lon_deg o; time_utc := time_utc o |}.

Definition set_sats (o : nmea_info_t) (n : Z) : nmea_info_t :=
  {| has_fix := has_fix o; fix_quality := fix_quality o; sats := n;
     lat_deg := lat_deg o; lon_deg := lon_deg o; time_utc := time_utc o |}.

Definition set_position (o : nmea_info_t) (lat lon : double) : nmea_info_t :=
  {| has_fix := has_fix o; fix_quality := fix_quality o; sats := sats o;
     lat_deg := lat; lon_deg := lon; time_utc := time_utc o |}.

(** The guard on [n > i], on [f[i]] and on its first character: slot [i]
    was filled, with a token that is not empty. *)
Definition filled (f : list cstring) (i : nat) : option cstring :=
  match f !! i with
  | Some (c :: t) => Some (c :: t)
  | _ => None
  end.

(** [strncpy (out->time_utc, t, 15); out->time_utc[15] = '\0';] *)
Definition copy_time (o : nmea_info_t) (f : list cstring) : nmea_info_t :=
  match filled f 1 with
  | Some t => set_time_utc o (take 15 t)
  | None => o
  end.

(** The block for [GPGGA] and [GNGGA], on the tokens [f]. *)
Definition decode_gga (o : nmea_info_t) (f : list cstring) : nmea_info_t :=
  let o1 := copy_time o f in
  let o2 := match filled f 6 with
            | Some t => set_quality o1 (atoi t)
            | None => o1
            end in
  let o3 := match filled f 7 with
            | Some t => set_sats o2 (atoi t)
            | None => o2
            end in
  if (5 <? List.length f)%nat
  then set_position o3 (nmea_deg_to_decimal (f !! 2%nat) (f !! 3%nat))
                       (nmea_deg_to_decimal (f !! 4%nat) (f !! 5%nat))
  else o3.

(** The block for [GPRMC] and [GNRMC], on the tokens [f]. *)
Definition decode_rmc (o : nmea_info_t) (f : list cstring) : nmea_info_t :=
  let o1 := copy_time o f in
  let o2 := match filled f 2 with
            | Some t => if Ascii.eqb (deref t) "A" then set_has_fix o1 true
                        else o1
            | None => o1
            end in
  if (6 <? List.length f)%nat
  then set_position o2 (nmea_deg_to_decimal (f !! 3%nat) (f !! 4%nat))
                       (nmea_deg_to_decimal (f !! 5%nat) (f !! 6%nat))
  else o2.

(** [strchr] for the star, and a terminator written over it: the string
    ends at the first star. *)
Fixpoint cut_at_star (p : cstring) : cstring :=
  match p with
  | [] => []
  | c :: p' => if Ascii.eqb c "*" then [] else c :: cut_at_star p'
  end.

(** [!strncmp (p, tag, 5)] for a tag of five characters. *)
Definition starts_with (tag : string) (p : cstring) : bool :=
  bool_decide (take 5 p = lit tag).

Definition nmea_parse_line (line : option cstring) (out : option nmea_info_t)
  : bool * option nmea_info_t :=
  match line, out with
  | Some l, Some o =>
      if negb (checksum_ok line) then (false, out)
      else
        let buf := take 255 l in
        let p := if Ascii.eqb (deref buf) "$" then List.tl buf else buf in
        let p := cut_at_star p in
        if starts_with "GPGGA" p || starts_with "GNGGA" p
        then (true, Some (decode_gga o (tokenize 16 p)))
        else if starts_with "GPRMC" p || starts_with "GNRMC" p
        then (true, Some (decode_rmc o (tokenize 16 p)))
        else (true, out)
  | _, _ => (false, out)
  end.

(** The record of a session that has decoded nothing yet. *)
Definition nmea_zero : nmea_info_t :=
  {| has_fix := false; fix_quality := 0; sats := 0;
     lat_deg := Dlit 0; lon_deg := Dlit 0; time_utc := [] |}.

(** *** The sentence format of the specification

    Written from the specification: a sentence is [$f0,f1,...,fN*HH]; its
    fields are the parts between the commas, empty ones included, and [HH]
    is the XOR of the characters between the dollar and the star, as two
    hexadecimal digits. *)

Definition hex_value (c : ascii) : option Z :=
  let n := uchar c in
  if (48 <=? n) && (n <=? 57) then Some (n - 48)
  else if (65 <=? n) && (n <=? 70) then Some (n - 55)
  else if (97 <=? n) && (n <=? 102) then Some (n - 87)
  else None.

(** The value of the two hexadecimal digits at the front of [after], if
    there are two. *)
Definition hex_pair (after : cstring) : option Z :=
  match after with
  | h :: l :: _ =>
      match hex_value h, hex_value l with
      | Some a, Some b => Some (16 * a + b)
      | _, _ => None
      end
  | _ => None
  end.

Definition xor_all (body : cstring) : Z :=
  foldr (fun c acc => Z.lxor (uchar c) acc) 0 body.

(** The three ways in which a line fails the checksum rule. *)
Inductive rejected (line : cstring) : Prop :=
| rejected_no_star :
    "*"%char ∉ line -> rejected line
| rejected_hex_pair body after :
    line = "$"%char :: body ++ "*"%char :: after ->
    "*"%char ∉ body ->
    hex_pair after = None -> rejected line
| rejected_mismatch body after v :
    line = "$"%char :: body ++ "*"%char :: after ->
    "*"%char ∉ body ->
    hex_pair after = Some v -> v <> xor_all body -> rejected line.

(** The comma-separated fields of a string, empty fields included. *)
Fixpoint fields (s : cstring) : list cstring :=
  match s with
  | [] => [[]]
  | c :: s' =>
      if Ascii.eqb c ","
      then [] :: fields s'
      else match fields s' with
           | f :: fs => (c :: f) :: fs
           | [] => [[c]]
           end
  end.

(** The fields of a sentence: those of its characters between the leading
    dollar and the star. *)
Definition sentence_fields (line : cstring) : list cstring :=
  fields (cut_at_star (List.tl line)).

Definition nonempty (t : cstring) : bool :=
  match t with
  | [] => false
  | _ :: _ => true
  end.

(** The fields that are not empty, in order. *)
Definition tokens (s : cstring) : list cstring :=
  List.filter nonempty (fields s).

(** A sentence whose first field begins with the five characters [tag]. *)
Definition sentence_type_is (tag : string) (line : cstring) : Prop :=
  exists f0, sentence_fields line !! 0%nat = Some f0 /\ take 5 f0 = lit tag.

(** A recommended-minimum sentence, of either system. *)
Definition is_rmc (line : cstring) : Prop :=
  sentence_type_is "GPRMC" line \/ sentence_type_is "GNRMC" line.

(** A fix-data sentence, of either system. *)
Definition is_gga (line : cstring) : Prop :=
  sentence_type_is "GPGGA" line \/ sentence_type_is "GNGGA" line.

(** What the caller finds in the accumulator after a call. *)
Definition decoded (line : string) (out : nmea_info_t)
  : bool * option nmea_info_t :=
  nmea_parse_line (Some (lit line)) (Some out).

(** Sentences longer than the 256-byte copy, for examples: a fix-data
    sentence whose latitude field is 250 zeros, and a recommended-minimum
    sentence whose time field is 260 ones. *)
Definition long_gga (rest : string) : cstring :=
  lit "$GPGGA,123519," ++ replicate 250 "0"%char ++ lit rest.

Definition long_rmc (rest : string) : cstring :=
  lit "$GPRMC," ++ replicate 260 "1"%char ++ lit rest.

(** The accumulator after the fix-data sentence of the examples. *)
Definition repeated_line_example : nmea_info_t :=
  Eval vm_compute in
    match nmea_parse_line
            (Some (lit "$GPGGA,123519,4807.038,N,01131.000,E,1,08,0.9,545.4,M,46.9,M,,*47"))
            (Some nmea_zero) with
    | (_, Some o) => o
    | _ => nmea_zero
    end.

End Nmea.

(** ** handlers.c: the read loop of [handle_gps] *)

Module GpsHandler.
Import Nmea.

(** The variables of the loop that assembles lines from the bytes of the
    serial port.  [line] holds the [llen] characters stored so far; a slot
    of [last] is [None] as long as it has never been written. *)
Record gps_state : Type := mk_gps_state {
  line : list ascii;              (* char line[256], size_t llen *)
  info : nmea_info_t;
  last : list (option (list ascii));   (* char last[5][128] *)
  last_idx : Z;                   (* int *)
  last_cnt : Z                    (* int *)
}.

Definition llen (st : gps_state) : Z := Z.of_nat (List.length (line st)).

(** The state before the first byte: [llen], [last_idx] and [last_cnt] are
    0, [info] is zeroed by [memset], the five slots are uninitialised. *)
Definition gps_start : gps_state :=
  {| line := []; info := nmea_zero; last := replicate 5 None;
     last_idx := 0; last_cnt := 0 |}.

(** The C string in an array that was filled with [raw] and then a
    terminator: it ends at the first NUL among [raw]. *)
Fixpoint c_string (raw : list ascii) : list ascii :=
  match raw with
  | [] => []
  | c :: raw' => if Ascii.eqb c zero then [] else c :: c_string raw'
  end.

(** The accumulator after [nmea_parse_line (text, &info)], whose return
    value the handler does not use. *)
Definition parse_into (acc : nmea_info_t) (text : list ascii)
  : nmea_info_t :=
  match nmea_parse_line (Some text) (Some acc) with
  | (_, Some acc') => acc'
  | (_, None) => acc
  end.

(** The body of [if (c == '\n')] for a line that is not empty. *)
Definition end_of_line (st : gps_state) : gps_state :=
  let text := c_string (line st) in
  {| line := [];
     info := parse_into (info st) text;
     last := <[Z.to_nat (last_idx st) := Some (take 127 text)]> (last st);
     last_idx := (last_idx st + 1) mod 5;
     last_cnt := if last_cnt st <? 5 then last_cnt st + 1 else last_cnt st |}.

Definition set_line (st : gps_state) (l : list ascii) : gps_state :=
  {| line := l; info := info st; last := last st;
     last_idx := last_idx st; last_cnt := last_cnt st |}.

(** The body of the loop over the bytes of one [read]. *)
Definition gps_feed_byte (st : gps_state) (c : ascii) : gps_state :=
  if Ascii.eqb c "013" then st
  else if Ascii.eqb c "010"
  then (if 0 <? llen st then end_of_line st else st)
  else if size_t (llen st + 1) <? 256
  then set_line st (line st ++ [c])
  else set_line st [].

Definition gps_feed (st : gps_state) (chunk : list ascii) : gps_state :=
  fold_left gps_feed_byte chunk st.

(** The successive reads of the loop, each returning the bytes [chunk]. *)
Definition gps_feed_reads (st : gps_state) (chunks : list (list ascii))
  : gps_state :=
  fold_left gps_feed chunks st.

(** The slots that the final [LOG:] loop prints, in its order. *)
Definition gps_log_tail (st : gps_state) : list (option (list ascii)) :=
  map (fun i => default None (last st !! Z.to_nat ((last_idx st + Z.of_nat i) mod 5)))
      (seq 0 (Z.to_nat (last_cnt st))).

(** The test of the final summary: a fix is reported as valid. *)
Definition gps_reports_fix (st : gps_state) : bool :=
  has_fix (info st) || (0 <? fix_quality (info st)).

(** A stream of complete lines as a receiver sends them, each followed by
    carriage return and line feed. *)
Definition wire (lines : list (list ascii)) : list ascii :=
  concat (map (fun l => l ++ ["013"%char; "010"%char]) lines).

(** A line as it can be stored whole: not empty, at most 255 characters,
    none of them a carriage return, a line feed or a NUL. *)
Definition plain_line (l : list ascii) : Prop :=
  l <> [] /\ (List.length l <= 255)%nat /\
  ("013"%char ∉ l) /\ ("010"%char ∉ l) /\ (zero ∉ l).

(** The state after a complete line [l] has arrived while the line buffer
    was empty: the line is decoded, stored in the ring and the buffer is
    empty again. *)
Definition stored (st : gps_state) (l : list ascii) : gps_state :=
  {| line := [];
     info := parse_into (info st) l;
     last := <[Z.to_nat (last_idx st) := Some (take 127 l)]> (last st);
     last_idx := (last_idx st + 1) mod 5;
     last_cnt := if last_cnt st <? 5 then last_cnt st + 1 else last_cnt st |}.

(** The ring of recent lines read from the slot that is written next:
    oldest slot first. *)
Definition ring (st : gps_state) : list (option (list ascii)) :=
  drop (Z.to_nat (last_idx st)) (last st)
    ++ take (Z.to_nat (last_idx st)) (last st).

End GpsHandler.

(** ** commands.c *)

Module Commands.
Import Nmea.

(** The handlers that the table can point to. *)
Inductive handler : Type :=
| handle_capture
| handle_gps
| handle_stream_start
| handle_tone_send.

Record Command : Type := mkCommand {
  name : list ascii;
  execute : option handler;     (* NULL for the built-in help *)
  description : string
}.

Definition commands : list Command :=
  [ mkCommand (lit "--capture") (Some handle_capture)
              "Simulate or trigger a capture sequence";
    mkCommand (lit "--gps") (Some handle_gps)
              "Retrieve GPS coordinates";
    mkCommand (lit "--stream-start") (Some handle_stream_start)
              "Start simulated streaming";
    mkCommand (lit "--tone-send") (Some handle_tone_send)
              "Send a test tone";
    mkCommand (lit "--help") None "Show this help menu" ].

(** What a call of [dispatch_command] does, in order. *)
Inductive effect : Type :=
| WarnNoCommand                 (* log_warning ("No command provided.") *)
| WarnUnknown (cmd : list ascii)
| InfoDispatching (cmd : list ascii)
| PrintUsage
| Execute (h : handler) (argc : Z) (argv : list (list ascii)).

(** [strcmp (a, b) == 0] *)
Definition same_string (a b : list ascii) : bool := bool_decide (a = b).

(** The [for] loop over a table; a call through a NULL [execute] is
    undefined. *)
Fixpoint dispatch_in (table : list Command) (cmd : list ascii) (argc : Z)
         (argv : list (list ascii)) : outcome (list effect) :=
  match table with
  | [] => Returns [WarnUnknown cmd; PrintUsage]
  | c :: table' =>
      if same_string cmd (name c)
      then
        if same_string cmd (lit "--help") then Returns [PrintUsage]
        else
          match execute c with
          | Some h => Returns [InfoDispatching cmd; Execute h argc argv]
          | None => Undefined
          end
      else dispatch_in table' cmd argc argv
  end.

Definition dispatch_command (cmd : option (list ascii)) (argc : Z)
           (argv : list (list ascii)) : outcome (list effect) :=
  match cmd with
  | None | Some [] => Returns [WarnNoCommand; PrintUsage]
  | Some c => dispatch_in commands c argc argv
  end.

(** The handler that a table gives to a name: that of the first entry
    with this name. *)
Fixpoint handler_of (table : list Command) (cmd : list ascii)
  : option handler :=
  match table with
  | [] => None
  | c :: table' =>
      if same_string cmd (name c) then execute c else handler_of table' cmd
  end.

(** The name under which the table registers a handler. *)
Definition command_name (h : handler) : list ascii :=
  match h with
  | handle_capture => lit "--capture"
  | handle_gps => lit "--gps"
  | handle_stream_start => lit "--stream-start"
  | handle_tone_send => lit "--tone-send"
  end.

End Commands.

(** ** main *)

Module Main.
Import Nmea RingQueue Commands.

Definition EXIT_SUCCESS : Z := 0.
Definition EXIT_FAILURE : Z := 1.

(** [static Queue main_queue], zeroed at program start. *)
Definition main_queue : Queue := mkQueue None 0 0 0 0.

(** [QueueItem item = { "SampleData", 10 }]: the ten characters and 246
    zero bytes. *)
Definition sample_item : QueueItem :=
  mkQueueItem (map uchar (lit "SampleData") ++ replicate 246 0) 10.

(** What a run of the program leaves: its exit status, what the dispatcher
    did, the queue at exit and the variable [out_item]. *)
Record main_result : Type := mk_main_result {
  exit_status : Z;
  effects : list effect;
  queue_at_exit : option Queue;
  out_item_at_exit : QueueItem
}.

(** The bodies of the handlers are not part of this development.  [call h
    argc argv] is what [main] can tell of a call of the handler [h]:
    [Returns tt] when the call comes back, [Undefined] when it does not. *)
Definition handler_calls : Type :=
  handler -> Z -> list (list ascii) -> outcome unit.

(** The calls among the steps of the dispatcher, made in order. *)
Fixpoint perform (call : handler_calls) (steps : list effect)
  : outcome unit :=
  match steps with
  | [] => Returns tt
  | Execute h argc argv :: steps' =>
      match call h argc argv with
      | Returns _ => perform call steps'
      | Undefined => Undefined
      end
  | _ :: steps' => perform call steps'
  end.

(** [main (argc, argv)] with [argc] the length of [argv], on a free store
    [heap]; [junk] is what the uninitialised [out_item] holds. *)
Definition main (call : handler_calls) (heap : list QueueItem)
           (junk : QueueItem) (argv : list (list ascii))
  : outcome main_result :=
  let argc := Z.of_nat (List.length argv) in
  match queue_init (Some main_queue) 10 heap with
  | (false, q) => Returns (mk_main_result EXIT_FAILURE [] q junk)
  | (true, q) =>
      if argc <? 2
      then Returns (mk_main_result EXIT_FAILURE [WarnNoCommand; PrintUsage]
                                   (queue_destroy q) junk)
      else
        match dispatch_command (argv !! 1%nat) (argc - 1) (List.tl argv) with
        | Undefined => Undefined
        | Returns done =>
            match perform call done with
            | Undefined => Undefined
            | Returns _ =>
                match queue_enqueue q (Some sample_item) with
                | Undefined => Undefined
                | Returns (_, q1) =>
                    match queue_dequeue q1 (Some junk) with
                    | Undefined => Undefined
                    | Returns (_, q2, out) =>
                        Returns (mk_main_result EXIT_SUCCESS done
                                   (queue_destroy q2) (default junk out))
                    end
                end
            end
        end
  end.

End Main.

(** * Properties *)

(** ** The bit reader *)

Section BitStreamFacts.
Import BitStream.

(** Case analysis on the integer comparisons of a goal. *)
Ltac zcases :=
  repeat match goal with
  | |- context [?a <? ?b] => destruct (Z.ltb_spec a b)
  | |- context [?a <=? ?b] => destruct (Z.leb_spec a b)
  | |- context [?a =? ?b] => destruct (Z.eqb_spec a b)
  end.

Lemma size_t_small z : 0 <= z <= SIZE_MAX -> size_t z = z.
Proof. unfold size_t, SIZE_MAX. intros H. apply Z.mod_small. lia. Qed.

Lemma low_bit_of_shift b k :
  0 <= k -> Z.land (Z.shiftr b k) 1 = Z.b2z (Z.testbit b k).
Proof.
  intros Hk. change 1 with (Z.ones 1). rewrite Z.land_ones by lia.
  rewrite <- Z.bit0_mod, Z.shiftr_spec by lia. reflexivity.
Qed.

Lemma push_bit v (b : bool) :
  0 <= v -> Z.lor (Z.shiftl v 1) (Z.b2z b) = 2 * v + Z.b2z b.
Proof.
  intros Hv. rewrite Z.shiftl_mul_pow2 by lia. change (2 ^ 1) with 2.
  destruct v as [|q|q]; [destruct b; reflexivity | | lia].
  rewrite Z.mul_comm. destruct b; reflexivity.
Qed.

Lemma stream_bit_lookup buf i b :
  0 <= i -> buf !! Z.to_nat (i / 8) = Some b ->
  stream_bit buf i = Z.testbit b (7 - i mod 8).
Proof. intros _ H. unfold stream_bit. rewrite H. reflexivity. Qed.

(** Loop invariant of [bit_parser_read]: [steps] more rounds shift the
    accumulator left by [steps] and fill the freed positions with the next
    stream bits, earliest bit highest. *)
Lemma read_loop_spec parser :
  0 <= bit_pos parser -> bit_length parser <= SIZE_MAX ->
  buffer_covers parser ->
  forall (steps : nat) (i v : Z),
    0 <= i -> 0 <= v < 2 ^ i -> i + Z.of_nat steps <= 32 ->
    bit_pos parser + i + Z.of_nat steps <= bit_length parser ->
    exists v',
      read_loop parser steps i v = Returns v' /\
      0 <= v' < 2 ^ (i + Z.of_nat steps) /\
      forall m, 0 <= m ->
        Z.testbit v' m =
          if m <? Z.of_nat steps
          then stream_bit (data parser)
                          (bit_pos parser + i + (Z.of_nat steps - 1 - m))
          else Z.testbit v (m - Z.of_nat steps).
Proof.
  intros Hpos Hmax Hcov steps.
  induction steps as [|k IH]; intros i v Hi Hv H32 Hlen.
  - exists v. simpl. rewrite Z.add_0_r. repeat split; try lia.
    intros m Hm. zcases; [lia|]. f_equal. lia.
  - cbn [read_loop].
    rewrite size_t_small by lia.
    set (a := bit_pos parser + i).
    assert (Ha : 0 <= a) by (unfold a; lia).
    assert (Hin : (Z.to_nat (a / 8) < length (data parser))%nat).
    { unfold buffer_covers in Hcov.
      assert (a < 8 * Z.of_nat (length (data parser))) by (unfold a; lia).
      assert (a / 8 < Z.of_nat (length (data parser)))
        by (apply Z.div_lt_upper_bound; lia).
      assert (0 <= a / 8) by (apply Z.div_pos; lia). lia. }
    destruct (lookup_lt_is_Some_2 (data parser) _ Hin) as [b Hb].
    rewrite Hb.
    assert (Hr : 0 <= a mod 8 < 8) by (apply Z.mod_pos_bound; lia).
    rewrite low_bit_of_shift by lia.
    assert (Hsh : uint32_t (Z.shiftl v 1) = Z.shiftl v 1).
    { unfold uint32_t. apply Z.mod_small.
      rewrite Z.shiftl_mul_pow2 by lia. change (2 ^ 1) with 2.
      assert (2 ^ (i + 1) <= 2 ^ 32) by (apply Z.pow_le_mono_r; lia).
      rewrite Z.pow_add_r in * by lia. change (2 ^ 1) with 2 in *. lia. }
    rewrite Hsh, push_bit by lia.
    set (bit := Z.testbit b (7 - a mod 8)).
    assert (Hv1 : 0 <= 2 * v + Z.b2z bit < 2 ^ (i + 1)).
    { rewrite Z.pow_add_r by lia. change (2 ^ 1) with 2.
      destruct bit; simpl Z.b2z; lia. }
    destruct (IH (i + 1) (2 * v + Z.b2z bit)) as (v' & Hrun & Hb' & Hbits);
      try lia.
    exists v'. split; [exact Hrun|]. split.
    { replace (i + Z.of_nat (S k)) with (i + 1 + Z.of_nat k) by lia.
      exact Hb'. }
    intros m Hm. rewrite (Hbits m Hm).
    destruct (Z.ltb_spec m (Z.of_nat k)).
    + destruct (Z.ltb_spec m (Z.of_nat (S k))); [|lia]. f_equal. lia.
    + destruct (Z.eq_dec m (Z.of_nat k)) as [->|Hne].
      * destruct (Z.ltb_spec (Z.of_nat k) (Z.of_nat (S k))); [|lia].
        rewrite Z.sub_diag, Z.testbit_0_r.
        replace (a + (Z.of_nat (S k) - 1 - Z.of_nat k)) with a by lia.
        symmetry. apply stream_bit_lookup; assumption.
      * destruct (Z.ltb_spec m (Z.of_nat (S k))); [lia|].
        replace (m - Z.of_nat k) with (Z.succ (m - Z.of_nat (S k))) by lia.
        apply Z.testbit_succ_r. lia.
Qed.

(** C1: a read of [num_bits] in [1,32] that fits in the stream returns the
    value whose bit [num_bits - 1 - j] is stream bit [pos + j] (so the first
    bit read is the most significant one), with no bit at or above position
    [num_bits], and moves the cursor to [pos + num_bits]. *)
Theorem bit_parser_read_msb_first (parser : BitParser) (num_bits : Z) :
  parser_ok parser -> buffer_covers parser ->
  1 <= num_bits <= 32 ->
  bit_pos parser + num_bits <= bit_length parser ->
  exists value,
    bit_parser_read parser num_bits =
      Returns (value, set_bit_pos parser (bit_pos parser + num_bits)) /\
    0 <= value < 2 ^ num_bits /\
    value < 2 ^ 32 /\
    forall j, 0 <= j < num_bits ->
      Z.testbit value (num_bits - 1 - j) =
        stream_bit (data parser) (bit_pos parser + j).
Proof.
  intros [Hpos Hmax] Hcov Hn Hfit.
  unfold bit_parser_read.
  destruct (Z.eqb_spec num_bits 0); [lia|].
  destruct (Z.ltb_spec 32 num_bits); [lia|]. cbn [orb].
  rewrite size_t_small by lia.
  destruct (Z.ltb_spec (bit_length parser) (bit_pos parser + num_bits));
    [lia|].
  destruct (read_loop_spec parser ltac:(lia) Hmax Hcov
              (Z.to_nat num_bits) 0 0) as (v & Hrun & Hb & Hbits);
    try (rewrite ?Z2Nat.id by lia; simpl; lia).
  rewrite Z2Nat.id in * by lia. rewrite Z.add_0_l in Hb. rewrite Hrun.
  exists v. split; [reflexivity|]. split; [exact Hb|]. split.
  { assert (2 ^ num_bits <= 2 ^ 32) by (apply Z.pow_le_mono_r; lia). lia. }
  intros j Hj. rewrite Hbits by lia.
  destruct (Z.ltb_spec (num_bits - 1 - j) num_bits); [|lia].
  f_equal. lia.
Qed.

Lemma bit_parser_read_msb_first_witness :
  exists value,
    bit_parser_read (mkBitParser [165; 60] 16 3) 7 =
      Returns (value, set_bit_pos (mkBitParser [165; 60] 16 3) (3 + 7)) /\
    0 <= value < 2 ^ 7 /\
    value < 2 ^ 32 /\
    forall j, 0 <= j < 7 ->
      Z.testbit value (7 - 1 - j) = stream_bit [165; 60] (3 + j).
Proof.
  apply (bit_parser_read_msb_first (mkBitParser [165; 60] 16 3) 7).
  - unfold parser_ok, SIZE_MAX. simpl. lia.
  - unfold buffer_covers. simpl. lia.
  - lia.
  - simpl. lia.
Defined.

(** The three rejections of [bit_parser_read].  The first two hold for
    every request; the third as long as the [size_t] sum [bit_pos +
    num_bits] does not wrap around. *)
Lemma bit_parser_read_rejects (parser : BitParser) (num_bits : Z) :
  0 <= bit_pos parser -> 0 <= num_bits ->
  num_bits = 0 \/ 32 < num_bits \/
    (bit_length parser < bit_pos parser + num_bits /\
     bit_pos parser + num_bits <= SIZE_MAX) ->
  bit_parser_read parser num_bits = Returns (0, parser).
Proof.
  intros Hpos Hn Hbad. unfold bit_parser_read.
  destruct (Z.eqb_spec num_bits 0); [reflexivity|].
  destruct (Z.ltb_spec 32 num_bits); [reflexivity|]. cbn [orb].
  rewrite size_t_small by lia.
  destruct (Z.ltb_spec (bit_length parser) (bit_pos parser + num_bits));
    [reflexivity | lia].
Qed.

(** C7 (defect): with the cursor at [SIZE_MAX] the sum [bit_pos + 1] wraps
    to 0, the bounds test passes although no bit is left, and the read
    either leaves the buffer or returns with the cursor moved to 0; it
    never is the rejection "0, cursor unchanged". *)
Theorem bit_parser_read_wraps_at_size_max (buf : list Z) :
  let parser := bit_parser_skip (bit_parser_init buf SIZE_MAX) SIZE_MAX in
  parser = mkBitParser buf SIZE_MAX SIZE_MAX /\
  bit_length parser < bit_pos parser + 1 /\
  bit_parser_read parser 1 <> Returns (0, parser) /\
  (bit_parser_read parser 1 = Undefined \/
   exists value,
     bit_parser_read parser 1 = Returns (value, set_bit_pos parser 0)).
Proof.
  cbv zeta.
  assert (E : bit_parser_skip (bit_parser_init buf SIZE_MAX) SIZE_MAX
              = mkBitParser buf SIZE_MAX SIZE_MAX) by reflexivity.
  rewrite E. split; [reflexivity|]. split; [simpl; lia|].
  unfold bit_parser_read. cbn [orb Z.eqb Z.ltb Z.compare Pos.compare
    Pos.compare_cont bit_pos bit_length].
  change (size_t (SIZE_MAX + 1)) with 0.
  change (SIZE_MAX <? 0) with false. cbv iota.
  destruct (read_loop _ _ 0 0) as [value|].
  - split; [|right; exists value; reflexivity].
    intros H. inversion H.
  - split; [discriminate | left; reflexivity].
Qed.

(** [bit_parser_skip] when the [size_t] sum does not wrap: advance, or
    clamp to [bit_length]. *)
Lemma bit_parser_skip_no_wrap (parser : BitParser) (num_bits : Z) :
  0 <= bit_pos parser -> 0 <= num_bits ->
  bit_pos parser + num_bits <= SIZE_MAX ->
  bit_pos (bit_parser_skip parser num_bits) =
    if bit_pos parser + num_bits <=? bit_length parser
    then bit_pos parser + num_bits
    else bit_length parser.
Proof.
  intros Hpos Hn Hsum. unfold bit_parser_skip.
  rewrite size_t_small by lia.
  destruct (Z.leb_spec (bit_pos parser + num_bits) (bit_length parser));
    reflexivity.
Qed.

(** However the sum wraps, the cursor stays inside the stream. *)
Lemma bit_parser_skip_in_stream (parser : BitParser) (num_bits : Z) :
  parser_ok parser -> parser_ok (bit_parser_skip parser num_bits).
Proof.
  intros [Hpos Hmax]. unfold bit_parser_skip, parser_ok.
  assert (0 <= size_t (bit_pos parser + num_bits))
    by (unfold size_t; apply Z.mod_pos_bound; lia).
  destruct (Z.leb_spec (size_t (bit_pos parser + num_bits))
                       (bit_length parser)); simpl; lia.
Qed.

(** C8 (defect): skipping [SIZE_MAX] bits from cursor 5 of a 10-bit stream
    goes past the end, yet the wrapped sum 4 passes the test and the cursor
    moves back to 4 instead of being clamped to 10. *)
Theorem bit_parser_skip_wraps_backwards :
  let parser := mkBitParser [0; 0] 10 5 in
  bit_length parser < bit_pos parser + SIZE_MAX /\
  bit_pos (bit_parser_skip parser SIZE_MAX) = 4.
Proof. cbv zeta. split; [unfold SIZE_MAX; simpl; lia | reflexivity]. Qed.

End BitStreamFacts.

(** ** The bounded queue *)

Section RingQueueFacts.
Import RingQueue.

Lemma mod_wrap x n :
  0 < n -> 0 <= x < 2 * n ->
  x mod n = if x <? n then x else x - n.
Proof.
  intros Hn Hx. destruct (Z.ltb_spec x n).
  - apply Z.mod_small. lia.
  - symmetry. apply (Z.mod_unique_pos x n 1); lia.
Qed.

Lemma slot_injective h n j k :
  0 < n -> 0 <= h < n -> 0 <= j < n -> 0 <= k < n ->
  (h + j) mod n = (h + k) mod n -> j = k.
Proof.
  intros Hn Hh Hj Hk. rewrite !mod_wrap by lia.
  destruct (Z.ltb_spec (h + j) n), (Z.ltb_spec (h + k) n); lia.
Qed.

Lemma slot_in_range h n k : 0 < n -> 0 <= (h + k) mod n < n.
Proof. intros Hn. apply Z.mod_pos_bound. exact Hn. Qed.

(** Without a wrap the byte count is worth exactly [cap] slots. *)
Lemma malloc_request_no_wrap cap :
  0 < cap -> sizeof_QueueItem * cap <= SIZE_MAX ->
  size_t (sizeof_QueueItem * cap) = sizeof_QueueItem * cap /\
  size_t (sizeof_QueueItem * cap) / sizeof_QueueItem = cap.
Proof.
  unfold sizeof_QueueItem. intros Hcap Hfit.
  rewrite size_t_small by lia. split; [reflexivity|].
  rewrite Z.mul_comm. apply Z.div_mul. lia.
Qed.


Lemma queue_init_holds q0 cap heap s :
  0 < cap <= SIZE_MAX ->
  sizeof_QueueItem * cap <= SIZE_MAX ->
  queue_init (Some q0) cap heap = (true, Some s) ->
  holds s [] /\ capacity s = cap.
Proof.
  intros Hcap Hfit. unfold queue_init, malloc_items.
  destruct (Z.eqb_spec cap 0); [lia|].
  destruct (malloc_request_no_wrap cap) as [Hreq Hslots]; [lia | exact Hfit |].
  rewrite Hslots, Hreq.
  destruct (Z.ltb_spec (sizeof_QueueItem * Z.of_nat (List.length heap))
                       (sizeof_QueueItem * cap)); [discriminate|].
  intros [= <-]. split; [|reflexivity].
  unfold holds. cbn [items capacity head tail count List.length].
  rewrite Z.mod_0_l by lia.
  repeat split; try lia.
  eexists. split; [reflexivity|]. split.
  - rewrite length_take_le; [reflexivity|].
    unfold sizeof_QueueItem in *. lia.
  - intros k Hk. lia.
Qed.

Lemma queue_enqueue_holds s l it :
  holds s l ->
  exists s',
    queue_enqueue (Some s) (Some it) =
      Returns (Z.of_nat (List.length l) <? capacity s, Some s') /\
    capacity s' = capacity s /\
    holds s' (if Z.of_nat (List.length l) <? capacity s
              then l ++ [it] else l).
Proof.
  intros H.
  pose proof H as (Hcap & Hhead & Hcount & Hle & Htail &
                   a & Hitems & Hlen & Hslots).
  unfold queue_enqueue, queue_is_full.
  destruct (Z.eqb_spec (count s) (capacity s)) as [Hfull|Hnot].
  - destruct (Z.ltb_spec (Z.of_nat (List.length l)) (capacity s)); [lia|].
    exists s. split; [reflexivity|]. split; [reflexivity | exact H].
  - destruct (Z.ltb_spec (Z.of_nat (List.length l)) (capacity s)); [|lia].
    assert (Ht : 0 <= tail s < capacity s)
      by (rewrite Htail; apply slot_in_range; lia).
    assert (Hin : (Z.to_nat (tail s) < List.length a)%nat) by lia.
    rewrite Hitems.
    destruct (Nat.ltb_spec (Z.to_nat (tail s)) (List.length a)); [|lia].
    destruct (Z.eqb_spec (capacity s) 0); [lia|]. cbn [andb negb].
    eexists. split; [reflexivity|]. split; [reflexivity|].
    unfold holds. cbn [items capacity head tail count].
    rewrite !size_t_small by lia. rewrite length_app.
    cbn [List.length].
    split; [lia|]. split; [lia|]. split; [lia|]. split; [lia|].
    split; [rewrite Htail, Z.add_mod_idemp_l by lia; f_equal; lia|].
    eexists. split; [reflexivity|].
    split; [rewrite length_insert; exact Hlen|].
    intros k Hk.
    destruct (Nat.eq_dec k (List.length l)) as [->|Hne].
    + rewrite <- Hcount, <- Htail.
      rewrite list_lookup_insert_eq by lia.
      rewrite lookup_app_r by lia. rewrite Nat.sub_diag. reflexivity.
    + rewrite lookup_app_l by lia.
      rewrite list_lookup_insert_ne; [apply Hslots; lia|].
      intros Heq. apply Z2Nat.inj in Heq;
        [| lia | apply slot_in_range; lia].
      rewrite Htail in Heq.
      apply slot_injective in Heq; lia.
Qed.

Lemma queue_dequeue_holds s l scratch :
  holds s l ->
  match l with
  | [] =>
      queue_dequeue (Some s) (Some scratch) =
        Returns (false, Some s, Some scratch)
  | it :: l' =>
      exists s',
        queue_dequeue (Some s) (Some scratch) =
          Returns (true, Some s', Some it) /\
        capacity s' = capacity s /\
        holds s' l'
  end.
Proof.
  intros H.
  pose proof H as (Hcap & Hhead & Hcount & Hle & Htail &
                   a & Hitems & Hlen & Hslots).
  unfold queue_dequeue, queue_is_empty.
  destruct l as [|it l'].
  - cbn [List.length] in Hcount. rewrite Hcount. reflexivity.
  - cbn [List.length] in Hcount, Hle.
    destruct (Z.eqb_spec (count s) 0); [lia|].
    pose proof (Hslots 0%nat ltac:(cbn; lia)) as H0.
    rewrite Z.add_0_r, Z.mod_small in H0 by lia. cbn in H0.
    rewrite Hitems, H0.
    destruct (Z.eqb_spec (capacity s) 0); [lia|].
    eexists. split; [reflexivity|]. split; [reflexivity|].
    unfold holds. cbn [items capacity head tail count].
    rewrite !size_t_small by lia.
    split; [lia|]. split; [apply slot_in_range; lia|].
    split; [lia|]. split; [lia|].
    split; [rewrite Htail, Z.add_mod_idemp_l by lia; f_equal; lia|].
    exists a. split; [reflexivity|]. split; [exact Hlen|].
    intros k Hk. rewrite Z.add_mod_idemp_l by lia.
    replace (head s + 1 + Z.of_nat k) with (head s + Z.of_nat (S k))
      by lia.
    rewrite Hslots by (cbn; lia). reflexivity.
Qed.



(** Each call on the circular buffer is the corresponding call on the
    list it holds. *)
Lemma step_refines scratch s l o :
  holds s l ->
  exists s',
    step scratch s o =
      Returns (fst (fifo_step (capacity s) l o), s') /\
    capacity s' = capacity s /\
    holds s' (snd (fifo_step (capacity s) l o)).
Proof.
  intros H. destruct o as [it|]; unfold step, fifo_step.
  - destruct (queue_enqueue_holds s l it H) as (s' & -> & Hc & Hh).
    exists s'. destruct (Z.of_nat (List.length l) <? capacity s);
      (split; [reflexivity|]); split; assumption.
  - pose proof (queue_dequeue_holds s l scratch H) as Hd.
    destruct l as [|it l'].
    + rewrite Hd. exists s. split; [reflexivity|]. split; [reflexivity|].
      exact H.
    + destruct Hd as (s' & -> & Hc & Hh). exists s'.
      split; [reflexivity|]. split; assumption.
Qed.

Lemma run_refines scratch ops : forall s l,
  holds s l ->
  exists s',
    run scratch s ops = Returns (fst (fifo_run (capacity s) l ops), s') /\
    capacity s' = capacity s /\
    holds s' (snd (fifo_run (capacity s) l ops)).
Proof.
  induction ops as [|o ops IH]; intros s l H.
  - exists s. split; [reflexivity|]. split; [reflexivity | exact H].
  - cbn [run fifo_run].
    destruct (step_refines scratch s l o H) as (s1 & -> & Hc1 & H1).
    destruct (fifo_step (capacity s) l o) as [e l1]. cbn [fst snd] in *.
    destruct (IH s1 l1 H1) as (s2 & -> & Hc2 & H2).
    rewrite Hc1 in *.
    destruct (fifo_run (capacity s) l1 ops) as [tr l2]. cbn [fst snd] in *.
    exists s2. split; [reflexivity|]. split; [congruence | exact H2].
Qed.

(** In the list queue, what was accepted is what was delivered followed
    by what is still waiting. *)
Lemma fifo_run_order cap ops : forall l,
  l ++ accepted (fst (fifo_run cap l ops)) =
    delivered (fst (fifo_run cap l ops)) ++ snd (fifo_run cap l ops).
Proof.
  induction ops as [|o ops IH]; intros l.
  - cbn. rewrite app_nil_r. reflexivity.
  - cbn [fifo_run]. destruct o as [it|]; cbn [fifo_step].
    + destruct (Z.of_nat (List.length l) <? cap).
      * specialize (IH (l ++ [it])).
        destruct (fifo_run cap (l ++ [it]) ops) as [tr l2].
        cbn [fst snd accepted delivered] in *.
        rewrite <- IH, <- app_assoc. reflexivity.
      * specialize (IH l). destruct (fifo_run cap l ops) as [tr l2].
        cbn [fst snd accepted delivered] in *. exact IH.
    + destruct l as [|it l'].
      * specialize (IH []). destruct (fifo_run cap [] ops) as [tr l2].
        cbn [fst snd accepted delivered] in *. exact IH.
      * specialize (IH l'). destruct (fifo_run cap l' ops) as [tr l2].
        cbn [fst snd accepted delivered] in *.
        rewrite <- !app_comm_cons. f_equal. exact IH.
Qed.

Lemma fifo_run_app cap a b l :
  fifo_run cap l (a ++ b) =
    (fst (fifo_run cap l a) ++ fst (fifo_run cap (snd (fifo_run cap l a)) b),
     snd (fifo_run cap (snd (fifo_run cap l a)) b)).
Proof.
  revert l. induction a as [|o a IH]; intros l.
  - cbn. destruct (fifo_run cap l b). reflexivity.
  - cbn [app fifo_run]. destruct (fifo_step cap l o) as [e l1].
    rewrite IH. destruct (fifo_run cap l1 a) as [t1 l2]. reflexivity.
Qed.

Lemma fifo_run_enqueues cap xs : forall l,
  Z.of_nat (List.length l) + Z.of_nat (List.length xs) <= cap ->
  fifo_run cap l (map Enq xs) =
    (map (fun x => Enqueued x true) xs, l ++ xs).
Proof.
  induction xs as [|x xs IH]; intros l Hlen.
  - cbn. rewrite app_nil_r. reflexivity.
  - cbn [map fifo_run fifo_step List.length] in *.
    destruct (Z.ltb_spec (Z.of_nat (List.length l)) cap); [|lia].
    rewrite IH by (rewrite length_app; cbn; lia).
    rewrite <- app_assoc. reflexivity.
Qed.

Lemma fifo_run_dequeues cap l :
  fifo_run cap l (replicate (List.length l) Deq) =
    (map (fun x => Dequeued (Some x)) l, []).
Proof.
  induction l as [|x l IH]; [reflexivity|].
  cbn [List.length replicate fifo_run fifo_step map]. rewrite IH.
  reflexivity.
Qed.

(** C3 (defect): a capacity whose array does not fit in a [size_t] gives a
    queue with too small a block.  For the capacity 69874030582233151 the
    byte count [sizeof (QueueItem) * capacity] wraps to 248, less than one
    item: [queue_init] succeeds on every store that has a slot left, with
    a block that has room for no item, and records the capacity asked for.
    The first enqueue on this fresh and empty queue does not succeed: it
    writes outside the block, and so does every run that begins with an
    enqueue. *)
Theorem queue_init_wraps_byte_count
        (q0 : Queue) (h : QueueItem) (heap : list QueueItem)
        (it scratch : QueueItem) (ops : list op) :
  let cap := 69874030582233151 in
  let fresh := mkQueue (Some []) cap 0 0 0 in
  0 < cap <= SIZE_MAX /\
  size_t (sizeof_QueueItem * cap) = 248 /\
  queue_init (Some q0) cap (h :: heap) = (true, Some fresh) /\
  queue_is_empty (Some fresh) = true /\
  queue_is_full (Some fresh) = false /\
  queue_enqueue (Some fresh) (Some it) = Undefined /\
  run scratch fresh (Enq it :: ops) = Undefined.
Proof.
  cbv zeta. split; [unfold SIZE_MAX; lia|]. split; [reflexivity|].
  split; [|repeat split; reflexivity].
  unfold queue_init, malloc_items.
  change (69874030582233151 =? 0) with false. cbv iota.
  change (size_t (sizeof_QueueItem * 69874030582233151)) with 248.
  destruct (Z.ltb_spec
              (sizeof_QueueItem * Z.of_nat (List.length (h :: heap))) 248)
    as [Hlt|_]; [|reflexivity].
  unfold sizeof_QueueItem in Hlt. cbn [List.length] in Hlt. lia.
Qed.

(** C4 (defect): a capacity whose array does not fit in a [size_t] gives
    a queue that is not the list queue of that capacity.  For the capacity
    2^61 + 1 the byte count wraps to 264, one item: [queue_init] succeeds
    with a block of one slot and records the capacity asked for.  The list
    queue of that capacity accepts two items and delivers them in order;
    on the circular buffer the first enqueue fills slot 0 and the second
    writes to slot 1, outside the block. *)
Theorem queue_run_leaves_wrapped_array
        (q0 : Queue) (h : QueueItem) (heap : list QueueItem)
        (a b scratch : QueueItem) :
  let cap := 2305843009213693953 in
  let fresh := mkQueue (Some [h]) cap 0 0 0 in
  0 < cap <= SIZE_MAX /\
  size_t (sizeof_QueueItem * cap) = sizeof_QueueItem /\
  queue_init (Some q0) cap (h :: heap) = (true, Some fresh) /\
  fst (fifo_run cap [] [Enq a; Enq b; Deq; Deq]) =
    [Enqueued a true; Enqueued b true;
     Dequeued (Some a); Dequeued (Some b)] /\
  step scratch fresh (Enq a) =
    Returns (Enqueued a true, mkQueue (Some [a]) cap 0 1 1) /\
  step scratch (mkQueue (Some [a]) cap 0 1 1) (Enq b) = Undefined /\
  run scratch fresh [Enq a; Enq b; Deq; Deq] = Undefined.
Proof.
  cbv zeta. split; [unfold SIZE_MAX; lia|]. split; [reflexivity|].
  split; [|repeat split; reflexivity].
  unfold queue_init, malloc_items.
  change (2305843009213693953 =? 0) with false. cbv iota.
  change (size_t (sizeof_QueueItem * 2305843009213693953)) with 264.
  destruct (Z.ltb_spec
              (sizeof_QueueItem * Z.of_nat (List.length (h :: heap))) 264)
    as [Hlt|_]; [|reflexivity].
  unfold sizeof_QueueItem in Hlt. cbn [List.length] in Hlt. lia.
Qed.



End RingQueueFacts.

(** ** The sentence decoder *)

Section NmeaFacts.
Import Nmea.

Lemma absent_by_computation (c : ascii) (s : cstring) :
  bool_decide (c ∉ s) = true -> c ∉ s.
Proof. apply bool_decide_eq_true_1. Qed.

Lemma xor_to_star_at_star body after : forall cs,
  "*"%char ∉ body ->
  xor_to_star (body ++ "*"%char :: after) cs =
    (Z.lxor cs (xor_all body), "*"%char :: after).
Proof.
  induction body as [|c body IH]; intros cs Hno.
  - cbn. rewrite Z.lxor_0_r. reflexivity.
  - apply not_elem_of_cons in Hno as [Hc Hno].
    cbn [app xor_to_star xor_all foldr].
    destruct (Ascii.eqb_spec c "*"); [congruence|].
    rewrite IH by exact Hno. rewrite Z.lxor_assoc. reflexivity.
Qed.

Lemma xor_to_star_runs_out p : forall cs,
  "*"%char ∉ p -> snd (xor_to_star p cs) = [].
Proof.
  induction p as [|c p IH]; intros cs Hno; [reflexivity|].
  apply not_elem_of_cons in Hno as [Hc Hno]. cbn [xor_to_star].
  destruct (Ascii.eqb_spec c "*"); [congruence|]. apply IH, Hno.
Qed.

Lemma hex_value_range c v : hex_value c = Some v -> 0 <= v < 16.
Proof.
  unfold hex_value.
  repeat match goal with
         | |- context [?a <=? ?b] => destruct (Z.leb_spec a b)
         end; cbn [andb]; intros [= <-]; lia.
Qed.

Lemma hex2uc_value c :
  hex2uc c = match hex_value c with Some v => v | None => 255 end.
Proof.
  unfold hex2uc, hex_value.
  repeat match goal with
         | |- context [?a <=? ?b] => destruct (Z.leb_spec a b)
         end; cbn [andb]; lia.
Qed.

Lemma hex_join hi lo :
  0 <= hi < 16 -> 0 <= lo < 16 -> Z.lor (Z.shiftl hi 4) lo = 16 * hi + lo.
Proof.
  intros Hhi Hlo. rewrite Z.shiftl_mul_pow2 by lia.
  rewrite <- Z.add_nocarry_lor; [change (2 ^ 4) with 16; lia|].
  apply Z.bits_inj'. intros n Hn.
  rewrite Z.land_spec, Z.bits_0.
  destruct (Z.lt_ge_cases n 4).
  - rewrite Z.mul_pow2_bits_low by lia. reflexivity.
  - replace (Z.testbit lo n) with false; [apply andb_false_r|].
    symmetry. destruct (Z.eq_dec lo 0) as [->|]; [apply Z.bits_0|].
    apply Z.bits_above_log2; [lia|].
    assert (Z.log2 lo < 4) by (apply Z.log2_lt_pow2; simpl; lia). lia.
Qed.

(** [checksum_ok] on a line with a leading dollar and a first star: the
    hexadecimal pair after the star must be well formed and equal to the
    XOR of the characters in between. *)
Lemma checksum_ok_spec body after :
  "*"%char ∉ body ->
  checksum_ok (Some ("$"%char :: body ++ "*"%char :: after)) =
    match hex_pair after with
    | Some v => xor_all body =? v
    | None => false
    end.
Proof.
  intros Hno. unfold checksum_ok. cbn [Ascii.eqb Bool.eqb negb].
  rewrite xor_to_star_at_star by exact Hno. rewrite Z.lxor_0_l.
  rewrite !hex2uc_value. unfold hex_pair.
  destruct after as [|h [|l rest]]; cbn [deref List.tl].
  - reflexivity.
  - change (hex_value zero) with (@None Z).
    destruct (hex_value h); [rewrite orb_true_r|]; reflexivity.
  - destruct (hex_value h) as [a|] eqn:Ha; [|reflexivity].
    destruct (hex_value l) as [b|] eqn:Hb;
      [|rewrite orb_true_r; reflexivity].
    pose proof (hex_value_range _ _ Ha). pose proof (hex_value_range _ _ Hb).
    destruct (Z.eqb_spec a 255); [lia|].
    destruct (Z.eqb_spec b 255); [lia|]. cbn [orb].
    rewrite hex_join by lia. reflexivity.
Qed.

Lemma rejected_fails_checksum line :
  rejected line -> checksum_ok (Some line) = false.
Proof.
  intros [Hno | body after -> Hno Hpair | body after v -> Hno Hpair Hv].
  - unfold checksum_ok. destruct line as [|c0 p0]; [reflexivity|].
    apply not_elem_of_cons in Hno as [_ Hno].
    destruct (negb (Ascii.eqb c0 "$")); [reflexivity|].
    pose proof (xor_to_star_runs_out p0 0 Hno) as Hend.
    destruct (xor_to_star p0 0) as [cs p]. cbn in Hend. subst p.
    reflexivity.
  - rewrite checksum_ok_spec, Hpair by exact Hno. reflexivity.
  - rewrite checksum_ok_spec, Hpair by exact Hno.
    apply Z.eqb_neq. congruence.
Qed.

(** C2: a line without a star, or with a malformed hexadecimal pair after
    the star, or whose pair differs from the XOR of the characters between
    the dollar and the star, makes [nmea_parse_line] return false, and the
    accumulator is the one that was passed in. *)
Theorem nmea_rejected_line_leaves_record (line : cstring)
        (out : nmea_info_t) :
  rejected line ->
  nmea_parse_line (Some line) (Some out) = (false, Some out).
Proof.
  intros H. unfold nmea_parse_line.
  rewrite (rejected_fails_checksum line H). reflexivity.
Qed.

Lemma nmea_rejected_line_leaves_record_witness :
  nmea_parse_line
    (Some (lit "$GPGGA,123519,4807.038,N,01131.000,E,1,08,0.9,545.4,M,46.9,M,,*48"))
    (Some nmea_zero) = (false, Some nmea_zero).
Proof.
  apply (nmea_rejected_line_leaves_record
           (lit "$GPGGA,123519,4807.038,N,01131.000,E,1,08,0.9,545.4,M,46.9,M,,*48")
           nmea_zero).
  apply (rejected_mismatch _
           (lit "GPGGA,123519,4807.038,N,01131.000,E,1,08,0.9,545.4,M,46.9,M,,")
           (lit "48") 72).
  - reflexivity.
  - apply absent_by_computation. reflexivity.
  - reflexivity.
  - vm_compute. discriminate.
Defined.

(** *** Tokens and fields *)

Lemma fields_scan_token s :
  exists fs,
    fields s = fst (scan_token s) :: fs /\
    List.filter nonempty fs = tokens (snd (scan_token s)).
Proof.
  induction s as [|c s (fs & Hf & Hr)].
  - exists []. split; reflexivity.
  - cbn [fields scan_token]. destruct (Ascii.eqb c ",").
    + exists (fields s). split; reflexivity.
    + rewrite Hf. destruct (scan_token s) as [t r]. cbn [fst snd] in *.
      exists fs. split; [reflexivity | exact Hr].
Qed.

Lemma tokens_skip_commas s : tokens (skip_commas s) = tokens s.
Proof.
  induction s as [|c s IH]; [reflexivity|].
  cbn [skip_commas]. destruct (Ascii.eqb c ",") eqn:E; [|reflexivity].
  rewrite IH. unfold tokens. cbn [fields]. rewrite E. reflexivity.
Qed.

Lemma skip_commas_head s c r : skip_commas s = c :: r -> c <> ","%char.
Proof.
  induction s as [|a s IH]; [discriminate|].
  cbn [skip_commas]. destruct (Ascii.eqb_spec a ","); [exact IH|].
  intros [= -> _]. assumption.
Qed.

(** What [strtok] returns is the first field that is not empty, and it
    leaves the fields after it to be scanned. *)
Lemma strtok_tokens s :
  match strtok s with
  | None => tokens s = []
  | Some (t, r) => tokens s = t :: tokens r
  end.
Proof.
  unfold strtok. rewrite <- (tokens_skip_commas s).
  destruct (skip_commas s) as [|c s1] eqn:E; [reflexivity|].
  pose proof (skip_commas_head _ _ _ E) as Hc.
  destruct (fields_scan_token (c :: s1)) as (fs & Hf & Hr).
  unfold tokens at 1. rewrite Hf.
  cbn [scan_token] in *.
  destruct (Ascii.eqb_spec c ","); [congruence|].
  destruct (scan_token s1) as [t r]. cbn [fst snd List.filter nonempty] in *.
  rewrite Hr. reflexivity.
Qed.

Lemma tokenize_tokens room : forall s,
  tokenize room s = take room (tokens s).
Proof.
  induction room as [|room IH]; intros s; [reflexivity|].
  cbn [tokenize]. pose proof (strtok_tokens s) as H.
  destruct (strtok s) as [[t r]|]; rewrite H; [|reflexivity].
  cbn [take]. rewrite IH. reflexivity.
Qed.

Lemma scan_token_prefix s : exists r, s = fst (scan_token s) ++ r.
Proof.
  induction s as [|c s [r Hr]]; [exists []; reflexivity|].
  cbn [scan_token]. destruct (Ascii.eqb c ",").
  - exists (c :: s). reflexivity.
  - destruct (scan_token s) as [t r']. cbn [fst] in *.
    exists r. cbn [app]. congruence.
Qed.

Lemma first_field_prefix s f0 :
  fields s !! 0%nat = Some f0 -> exists r, s = f0 ++ r.
Proof.
  destruct (fields_scan_token s) as (fs & Hf & _). rewrite Hf.
  intros [= <-]. apply scan_token_prefix.
Qed.

(** The type test of the code agrees with the type of the sentence. *)
Lemma starts_with_first_field tag s f0 :
  String.length tag = 5%nat ->
  fields s !! 0%nat = Some f0 -> take 5 f0 = lit tag ->
  starts_with tag s = true /\ f0 <> [].
Proof.
  intros Htag Hf0 Htake.
  assert (Hlen : List.length (lit tag) = 5%nat).
  { unfold lit. rewrite <- Htag. clear.
    induction tag as [|c tag IH]; [reflexivity|]. cbn. f_equal. exact IH. }
  assert (H5 : (5 <= List.length f0)%nat).
  { rewrite <- Htake, length_take in Hlen. lia. }
  split; [|intros ->; cbn in H5; lia].
  destruct (first_field_prefix _ _ Hf0) as [r ->].
  unfold starts_with. apply bool_decide_eq_true_2.
  rewrite take_app_le by exact H5. exact Htake.
Qed.

Lemma starts_with_other tag tag' s :
  lit tag <> lit tag' ->
  starts_with tag s = true -> starts_with tag' s = false.
Proof.
  unfold starts_with. intros Hne H.
  apply bool_decide_eq_true_1 in H. apply bool_decide_eq_false_2.
  congruence.
Qed.

Lemma checksum_ok_dollar line :
  checksum_ok (Some line) = true -> exists p0, line = "$"%char :: p0.
Proof.
  unfold checksum_ok. destruct line as [|c0 p0]; [discriminate|].
  destruct (Ascii.eqb_spec c0 "$") as [->|]; [|discriminate].
  intros _. exists p0. reflexivity.
Qed.

(** The string that the two blocks tokenize, for a line that passed the
    checksum and fits the 255 characters of the copy. *)
Lemma nmea_parse_short_line line out :
  checksum_ok (Some line) = true ->
  (List.length line <= 255)%nat ->
  nmea_parse_line (Some line) (Some out) =
    let p := cut_at_star (List.tl line) in
    if starts_with "GPGGA" p || starts_with "GNGGA" p
    then (true, Some (decode_gga out (take 16 (tokens p))))
    else if starts_with "GPRMC" p || starts_with "GNRMC" p
    then (true, Some (decode_rmc out (take 16 (tokens p))))
    else (true, Some out).
Proof.
  intros Hok Hlen. unfold nmea_parse_line. rewrite Hok. cbn [negb].
  destruct (checksum_ok_dollar _ Hok) as [p0 ->].
  rewrite take_ge by exact Hlen.
  cbn [deref Ascii.eqb Bool.eqb List.tl]. cbv zeta.
  rewrite !tokenize_tokens. reflexivity.
Qed.

(** *** What each block writes *)

Lemma copy_time_keeps o f :
  has_fix (copy_time o f) = has_fix o /\
  fix_quality (copy_time o f) = fix_quality o /\
  sats (copy_time o f) = sats o /\
  lat_deg (copy_time o f) = lat_deg o /\
  lon_deg (copy_time o f) = lon_deg o.
Proof. unfold copy_time. destruct (filled f 1); repeat split. Qed.

Lemma decode_rmc_has_fix o f :
  has_fix (decode_rmc o f) =
    match filled f 2 with
    | Some t => if Ascii.eqb (deref t) "A" then true else has_fix o
    | None => has_fix o
    end.
Proof.
  unfold decode_rmc. destruct (copy_time_keeps o f) as (Hk & _).
  destruct (6 <? List.length f)%nat; cbn [set_position has_fix];
    destruct (filled f 2) as [t|]; try exact Hk;
    destruct (Ascii.eqb (deref t) "A"); try exact Hk; reflexivity.
Qed.

(** C6, as the code has it: on a recommended-minimum sentence of at most
    255 characters that passes the checksum and whose time and status
    fields are not empty, has-fix becomes true when the status field
    begins with [A] and keeps its previous value otherwise; so a status [V]
    neither sets nor clears it. *)
Theorem rmc_status_sets_has_fix (line : cstring) (out : nmea_info_t)
        (time status : cstring) :
  checksum_ok (Some line) = true ->
  (List.length line <= 255)%nat ->
  is_rmc line ->
  sentence_fields line !! 1%nat = Some time -> time <> [] ->
  sentence_fields line !! 2%nat = Some status -> status <> [] ->
  exists out',
    nmea_parse_line (Some line) (Some out) = (true, Some out') /\
    has_fix out' =
      (if Ascii.eqb (deref status) "A" then true else has_fix out) /\
    (status = lit "V" -> has_fix out' = has_fix out).
Proof.
  intros Hok Hlen Hrmc Htime Hne1 Hstatus Hne2.
  rewrite nmea_parse_short_line by assumption. cbv zeta.
  unfold is_rmc, sentence_type_is, sentence_fields in *.
  set (p := cut_at_star (List.tl line)) in *.
  assert (Htype : (starts_with "GPRMC" p || starts_with "GNRMC" p = true)
                  /\ starts_with "GPGGA" p = false
                  /\ starts_with "GNGGA" p = false
                  /\ exists f0, fields p !! 0%nat = Some f0 /\ f0 <> []).
  { destruct Hrmc as [(f0 & Hf0 & Ht) | (f0 & Hf0 & Ht)].
    - destruct (starts_with_first_field "GPRMC" _ _ eq_refl Hf0 Ht)
        as [Hs Hn].
      rewrite Hs. repeat split; [| | exists f0; split; assumption];
        apply (starts_with_other "GPRMC"); (discriminate || assumption).
    - destruct (starts_with_first_field "GNRMC" _ _ eq_refl Hf0 Ht)
        as [Hs Hn].
      rewrite Hs, orb_true_r.
      repeat split; [| | exists f0; split; assumption];
        apply (starts_with_other "GNRMC"); (discriminate || assumption). }
  destruct Htype as (Hr & Hg1 & Hg2 & f0 & Hf0 & Hn0).
  rewrite Hg1, Hg2, Hr. cbn [orb].
  assert (Htok : take 16 (tokens p) !! 2%nat = Some status).
  { unfold tokens.
    destruct (fields p) as [|g0 [|g1 [|g2 fs]]]; try discriminate.
    cbn in Hf0, Htime, Hstatus.
    injection Hf0 as ->. injection Htime as ->. injection Hstatus as ->.
    destruct f0; [congruence|]. destruct time; [congruence|].
    destruct status; [congruence|]. reflexivity. }
  eexists. split; [reflexivity|].
  rewrite decode_rmc_has_fix. unfold filled. rewrite Htok.
  destruct status as [|c t]; [congruence|]. split; [reflexivity|].
  intros [= -> ->]. reflexivity.
Qed.

Lemma rmc_status_sets_has_fix_witness :
  exists out',
    nmea_parse_line
      (Some (lit "$GPRMC,123519,V,4807.038,N,01131.000,E,022.4,084.4,230394,003.1,W*7D"))
      (Some (set_has_fix nmea_zero true)) = (true, Some out') /\
    has_fix out' =
      (if Ascii.eqb (deref (lit "V")) "A" then true
       else has_fix (set_has_fix nmea_zero true)) /\
    (lit "V" = lit "V" ->
     has_fix out' = has_fix (set_has_fix nmea_zero true)).
Proof.
  apply (rmc_status_sets_has_fix
           (lit "$GPRMC,123519,V,4807.038,N,01131.000,E,022.4,084.4,230394,003.1,W*7D")
           (set_has_fix nmea_zero true) (lit "123519") (lit "V")).
  - reflexivity.
  - cbn. lia.
  - left. exists (lit "GPRMC"). split; reflexivity.
  - reflexivity.
  - discriminate.
  - reflexivity.
  - discriminate.
Defined.

(** C6 as stated fails in four ways.  A status [AV] is not exactly [A], yet
    has-fix is set.  After an empty time field a status that is exactly [A]
    does not set it.  A status [V] after an empty time field, or an empty
    status, has the next token taken for the status, and an [A] there sets
    has-fix.  And a status [A] beyond the 255 characters of the copy is
    not seen. *)
Lemma rmc_status_counterexample :
  (is_rmc (lit "$GPRMC,123519,AV,4807.038,N*01") /\
   sentence_fields (lit "$GPRMC,123519,AV,4807.038,N*01") !! 2%nat
     = Some (lit "AV") /\
   exists o, decoded "$GPRMC,123519,AV,4807.038,N*01" nmea_zero
             = (true, Some o) /\ has_fix o = true) /\
  (is_rmc (lit "$GPRMC,,A,4807.038,N,01131.000,E*33") /\
   sentence_fields (lit "$GPRMC,,A,4807.038,N,01131.000,E*33") !! 2%nat
     = Some (lit "A") /\
   exists o, decoded "$GPRMC,,A,4807.038,N,01131.000,E*33" nmea_zero
             = (true, Some o) /\ has_fix o = false) /\
  (is_rmc (lit "$GPRMC,,V,A*70") /\
   sentence_fields (lit "$GPRMC,,V,A*70") !! 2%nat = Some (lit "V") /\
   exists o, decoded "$GPRMC,,V,A*70" nmea_zero
             = (true, Some o) /\ has_fix o = true) /\
  (is_rmc (lit "$GPRMC,123519,,A*2B") /\
   sentence_fields (lit "$GPRMC,123519,,A*2B") !! 2%nat = Some [] /\
   exists o, decoded "$GPRMC,123519,,A*2B" nmea_zero
             = (true, Some o) /\ has_fix o = true) /\
  (is_rmc (long_rmc ",A*0A") /\
   sentence_fields (long_rmc ",A*0A") !! 2%nat = Some (lit "A") /\
   exists o, nmea_parse_line (Some (long_rmc ",A*0A")) (Some nmea_zero)
             = (true, Some o) /\ has_fix o = false).
Proof.
  repeat split;
    try (left; eexists; split; vm_compute; reflexivity);
    try (vm_compute; reflexivity);
    eexists; split; vm_compute; reflexivity.
Qed.

(** C5 (defect): [strtok] never returns an empty token, so an empty field
    makes every later token move one slot down.  A fix-data sentence and a
    recommended-minimum sentence, as a receiver without a fix sends them,
    have an empty time field; the time of the accumulator is overwritten
    all the same, by the quality field [0] and by the status field [V]. *)
Theorem empty_time_field_overwrites_time :
  let acc := set_time_utc nmea_zero (lit "123519") in
  (is_gga (lit "$GPGGA,,,,,,0,00,99.99,,,,,,*48") /\
   sentence_fields (lit "$GPGGA,,,,,,0,00,99.99,,,,,,*48") !! 1%nat
     = Some [] /\
   exists o, decoded "$GPGGA,,,,,,0,00,99.99,,,,,,*48" acc = (true, Some o)
             /\ time_utc o = lit "0") /\
  (is_rmc (lit "$GPRMC,,V,,,,,,,,,,N*53") /\
   sentence_fields (lit "$GPRMC,,V,,,,,,,,,,N*53") !! 1%nat = Some [] /\
   exists o, decoded "$GPRMC,,V,,,,,,,,,,N*53" acc = (true, Some o)
             /\ time_utc o = lit "V").
Proof.
  cbv zeta. repeat split;
    try (left; eexists; split; vm_compute; reflexivity);
    try (vm_compute; reflexivity);
    eexists; split; vm_compute; reflexivity.
Qed.

(** Case analysis on every guard of a decoding block. *)
Ltac cases_of_decode :=
  repeat match goal with
         | |- context [match ?x with _ => _ end] => destruct x
         end;
  try split; reflexivity.

(** What the two blocks leave alone, in terms of the tokens. *)
Lemma decode_gga_frame o f :
  (f !! 1%nat = None -> time_utc (decode_gga o f) = time_utc o) /\
  (f !! 6%nat = None ->
   fix_quality (decode_gga o f) = fix_quality o /\
   has_fix (decode_gga o f) = has_fix o) /\
  (f !! 7%nat = None -> sats (decode_gga o f) = sats o) /\
  (f !! 5%nat = None ->
   lat_deg (decode_gga o f) = lat_deg o /\
   lon_deg (decode_gga o f) = lon_deg o).
Proof.
  unfold decode_gga, copy_time, filled.
  split; [|split; [|split]]; intros H.
  - rewrite H. cases_of_decode.
  - rewrite H. cases_of_decode.
  - rewrite H. cases_of_decode.
  - apply lookup_ge_None in H.
    destruct (Nat.ltb_spec 5 (List.length f)); [lia|]. cases_of_decode.
Qed.

Lemma decode_rmc_frame o f :
  (f !! 1%nat = None -> time_utc (decode_rmc o f) = time_utc o) /\
  fix_quality (decode_rmc o f) = fix_quality o /\
  sats (decode_rmc o f) = sats o /\
  (f !! 2%nat = None -> has_fix (decode_rmc o f) = has_fix o) /\
  (f !! 6%nat = None ->
   lat_deg (decode_rmc o f) = lat_deg o /\
   lon_deg (decode_rmc o f) = lon_deg o).
Proof.
  unfold decode_rmc, copy_time, filled.
  split; [|split; [|split; [|split]]]; try intros H.
  - rewrite H. cases_of_decode.
  - cases_of_decode.
  - cases_of_decode.
  - rewrite H. cases_of_decode.
  - apply lookup_ge_None in H.
    destruct (Nat.ltb_spec 6 (List.length f)); [lia|]. cases_of_decode.
Qed.

Lemma tokens_all_fields s :
  Forall (fun t => t <> []) (fields s) -> tokens s = fields s.
Proof.
  unfold tokens. induction (fields s) as [|t l IH]; [reflexivity|].
  intros H. apply Forall_cons in H as [Ht Hl]. cbn [List.filter].
  destruct t; [congruence|]. cbn [nonempty]. f_equal. apply IH, Hl.
Qed.

Lemma lookup_take_None {A} (l : list A) (n i : nat) :
  l !! i = None -> take n l !! i = None.
Proof.
  intros H. apply lookup_ge_None in H. apply lookup_ge_None.
  rewrite length_take. lia.
Qed.

(** The frame property of C5, where the defect cannot show: on an accepted
    line of at most 255 characters none of whose fields is empty, a field
    of the accumulator whose field is absent from the sentence keeps its
    value. *)
Lemma frame_when_no_field_is_empty line out out' :
  checksum_ok (Some line) = true ->
  (List.length line <= 255)%nat ->
  Forall (fun t => t <> []) (sentence_fields line) ->
  nmea_parse_line (Some line) (Some out) = (true, Some out') ->
  (sentence_fields line !! 1%nat = None -> time_utc out' = time_utc out) /\
  (sentence_fields line !! 2%nat = None -> has_fix out' = has_fix out) /\
  (sentence_fields line !! 5%nat = None ->
   lat_deg out' = lat_deg out /\ lon_deg out' = lon_deg out) /\
  (sentence_fields line !! 6%nat = None ->
   fix_quality out' = fix_quality out) /\
  (sentence_fields line !! 7%nat = None -> sats out' = sats out).
Proof.
  intros Hok Hlen Hall. rewrite nmea_parse_short_line by assumption.
  cbv zeta. unfold sentence_fields in *.
  set (p := cut_at_star (List.tl line)) in *.
  rewrite (tokens_all_fields p Hall).
  assert (Hup : forall i j : nat, (i <= j)%nat ->
            fields p !! i = None -> fields p !! j = None).
  { intros i j Hij H. apply lookup_ge_None in H. apply lookup_ge_None.
    lia. }
  destruct (starts_with "GPGGA" p || starts_with "GNGGA" p);
    [|destruct (starts_with "GPRMC" p || starts_with "GNRMC" p)];
    intros [= <-].
  - destruct (decode_gga_frame out (take 16 (fields p)))
      as (Ht & Hq & Hs & Hp).
    split; [|split; [|split; [|split]]]; intros H.
    + apply Ht, lookup_take_None, H.
    + apply Hq, lookup_take_None, (Hup 2%nat); [lia | exact H].
    + apply Hp, lookup_take_None, H.
    + apply Hq, lookup_take_None, H.
    + apply Hs, lookup_take_None, H.
  - destruct (decode_rmc_frame out (take 16 (fields p)))
      as (Ht & Hq & Hs & Hf & Hp).
    split; [|split; [|split; [|split]]]; intros H.
    + apply Ht, lookup_take_None, H.
    + apply Hf, lookup_take_None, H.
    + apply Hp, lookup_take_None, (Hup 5%nat); [lia | exact H].
    + exact Hq.
    + exact Hs.
  - split; [|split; [|split; [|split]]]; intros _; try split; reflexivity.
Qed.

(** *** Lines longer than the copy *)

Lemma nmea_parse_line_returns line out :
  fst (nmea_parse_line (Some line) (Some out)) = checksum_ok (Some line).
Proof.
  unfold nmea_parse_line. destruct (checksum_ok (Some line)); cbn [negb];
    [|reflexivity].
  repeat match goal with
         | |- context [if ?b then _ else _] => destruct b
         end; reflexivity.
Qed.

Lemma star_split (p : cstring) :
  ("*"%char ∉ p) \/
  exists body after, p = body ++ "*"%char :: after /\ ("*"%char ∉ body).
Proof.
  induction p as [|c p [Hno | (body & after & -> & Hno)]].
  - left. apply not_elem_of_nil.
  - destruct (Ascii.eqb_spec c "*") as [->|Hc].
    + right. exists [], p. split; [reflexivity | apply not_elem_of_nil].
    + left. apply not_elem_of_cons. split; [congruence | exact Hno].
  - destruct (Ascii.eqb_spec c "*") as [->|Hc].
    + right. exists [], (body ++ "*"%char :: after).
      split; [reflexivity | apply not_elem_of_nil].
    + right. exists (c :: body), after. split; [reflexivity|].
      apply not_elem_of_cons. split; [congruence | exact Hno].
Qed.

(** The lines that pass the checksum test: a dollar, characters without
    a star, a star, and two hexadecimal digits whose value is the XOR of
    those characters. *)
Lemma checksum_ok_form (line : cstring) :
  checksum_ok (Some line) = true <->
  exists body h l rest a b,
    line = "$"%char :: body ++ "*"%char :: h :: l :: rest /\
    ("*"%char ∉ body) /\
    hex_value h = Some a /\ hex_value l = Some b /\
    16 * a + b = xor_all body.
Proof.
  split.
  - intros Hok. destruct (checksum_ok_dollar _ Hok) as [p0 ->].
    destruct (star_split p0) as [Hno | (body & after & -> & Hno)].
    + assert (Hrej : rejected ("$"%char :: p0)).
      { apply rejected_no_star, not_elem_of_cons.
        split; [discriminate | exact Hno]. }
      rewrite (rejected_fails_checksum _ Hrej) in Hok. discriminate.
    + rewrite checksum_ok_spec in Hok by exact Hno.
      unfold hex_pair in Hok.
      destruct after as [|h [|l rest]]; try discriminate.
      destruct (hex_value h) as [a|] eqn:Ha; [|discriminate].
      destruct (hex_value l) as [b|] eqn:Hb; [|discriminate].
      apply Z.eqb_eq in Hok.
      exists body, h, l, rest, a, b. repeat split; auto.
  - intros (body & h & l & rest & a & b & -> & Hno & Ha & Hb & Hsum).
    rewrite checksum_ok_spec by exact Hno.
    unfold hex_pair. rewrite Ha, Hb. apply Z.eqb_eq. congruence.
Qed.

Lemma cut_at_star_prefix (q : cstring) : exists r, q = cut_at_star q ++ r.
Proof.
  induction q as [|c q [r Hr]]; [exists []; reflexivity|].
  cbn [cut_at_star]. destruct (Ascii.eqb c "*").
  - exists (c :: q). reflexivity.
  - exists r. cbn [app]. congruence.
Qed.

Lemma cut_at_star_app (a b : cstring) :
  ("*"%char ∉ a) -> cut_at_star (a ++ b) = a ++ cut_at_star b.
Proof.
  induction a as [|c a IH]; intros Hno; [reflexivity|].
  apply not_elem_of_cons in Hno as [Hc Ha]. cbn [app cut_at_star].
  destruct (Ascii.eqb_spec c "*"); [congruence|]. rewrite IH by exact Ha.
  reflexivity.
Qed.

(** The type test of the code is a test on the five characters in front of
    the string, cut or not. *)
Lemma tag_test (tag : string) (q : cstring) :
  String.length tag = 5%nat -> ("*"%char ∉ lit tag) ->
  starts_with tag (cut_at_star q) = bool_decide (take 5 q = lit tag).
Proof.
  intros Htag Hno.
  assert (Hlen : List.length (lit tag) = 5%nat).
  { unfold lit. rewrite <- Htag. clear.
    induction tag as [|c tag IH]; [reflexivity|]. cbn. f_equal. exact IH. }
  unfold starts_with. apply bool_decide_ext. split; intros H.
  - destruct (cut_at_star_prefix q) as [r Hr].
    assert (H5 : (5 <= List.length (cut_at_star q))%nat).
    { rewrite <- H, length_take in Hlen. lia. }
    rewrite Hr, take_app_le by exact H5. exact H.
  - rewrite <- (take_drop 5 q), H, cut_at_star_app by exact Hno.
    rewrite take_app_length' by (symmetry; exact Hlen). reflexivity.
Qed.

(** The string that the two blocks tokenize, for a line that passed the
    checksum: what the first 255 characters hold between the dollar and
    the star. *)
Lemma nmea_parse_accepted (copy over : cstring) (out : nmea_info_t) :
  List.length copy = 255%nat ->
  checksum_ok (Some (copy ++ over)) = true ->
  exists c',
    copy = "$"%char :: c' /\
    nmea_parse_line (Some (copy ++ over)) (Some out) =
      if bool_decide (take 5 c' = lit "GPGGA")
         || bool_decide (take 5 c' = lit "GNGGA")
      then (true, Some (decode_gga out
                          (take 16 (List.filter nonempty
                                      (sentence_fields copy)))))
      else if bool_decide (take 5 c' = lit "GPRMC")
              || bool_decide (take 5 c' = lit "GNRMC")
      then (true, Some (decode_rmc out
                          (take 16 (List.filter nonempty
                                      (sentence_fields copy)))))
      else (true, Some out).
Proof.
  intros Hlen Hok. unfold nmea_parse_line. rewrite Hok. cbn [negb].
  rewrite take_app_length' by (symmetry; exact Hlen).
  destruct (checksum_ok_dollar _ Hok) as [p0 Hp0].
  destruct copy as [|c0 c']; [discriminate|].
  injection Hp0 as -> _. exists c'. split; [reflexivity|].
  cbn [deref Ascii.eqb Bool.eqb List.tl]. cbv zeta iota.
  rewrite !tokenize_tokens.
  rewrite !tag_test by
    (reflexivity || (apply absent_by_computation; reflexivity)).
  reflexivity.
Qed.

(** Tokens are never empty, so every guard on the first character of a
    token holds. *)
Lemma tokens_not_empty (n : nat) (l : list (list ascii)) :
  Forall (fun t => t <> []) (take n (List.filter nonempty l)).
Proof.
  apply Forall_take. induction l as [|t l IH]; [constructor|].
  cbn [List.filter]. destruct t as [|c t]; cbn [nonempty]; [exact IH|].
  constructor; [discriminate | exact IH].
Qed.

Lemma filled_lookup (f : list (list ascii)) (i : nat) :
  Forall (fun t => t <> []) f -> filled f i = f !! i.
Proof.
  intros Hall. unfold filled. destruct (f !! i) as [t|] eqn:E;
    [|reflexivity].
  destruct t; [|reflexivity].
  exfalso. apply (Forall_lookup_1 _ _ _ _ Hall E). reflexivity.
Qed.

Lemma slot_filled {A} (f : list A) (i : nat) :
  (i <? List.length f)%nat = match f !! i with Some _ => true | None => false end.
Proof.
  destruct (f !! i) eqn:E.
  - apply lookup_lt_Some in E. apply Nat.ltb_lt. exact E.
  - apply lookup_ge_None in E. apply Nat.ltb_ge. exact E.
Qed.

(** The two blocks on tokens, written out field by field. *)
Lemma decode_gga_explicit (o : nmea_info_t) (f : list (list ascii)) :
  Forall (fun t => t <> []) f ->
  decode_gga o f =
    {| has_fix := match f !! 6%nat with
                  | Some t => 0 <? atoi t
                  | None => has_fix o
                  end;
       fix_quality := match f !! 6%nat with
                      | Some t => atoi t
                      | None => fix_quality o
                      end;
       sats := match f !! 7%nat with
               | Some t => atoi t
               | None => sats o
               end;
       lat_deg := match f !! 5%nat with
                  | Some _ => nmea_deg_to_decimal (f !! 2%nat) (f !! 3%nat)
                  | None => lat_deg o
                  end;
       lon_deg := match f !! 5%nat with
                  | Some _ => nmea_deg_to_decimal (f !! 4%nat) (f !! 5%nat)
                  | None => lon_deg o
                  end;
       time_utc := match f !! 1%nat with
                   | Some t => take 15 t
                   | None => time_utc o
                   end |}.
Proof.
  intros Hall. unfold decode_gga, copy_time.
  rewrite !filled_lookup by exact Hall. rewrite slot_filled.
  destruct (f !! 1%nat), (f !! 6%nat), (f !! 7%nat), (f !! 5%nat);
    destruct o; reflexivity.
Qed.

Lemma decode_rmc_explicit (o : nmea_info_t) (f : list (list ascii)) :
  Forall (fun t => t <> []) f ->
  decode_rmc o f =
    {| has_fix := match f !! 2%nat with
                  | Some t => if Ascii.eqb (deref t) "A" then true
                              else has_fix o
                  | None => has_fix o
                  end;
       fix_quality := fix_quality o;
       sats := sats o;
       lat_deg := match f !! 6%nat with
                  | Some _ => nmea_deg_to_decimal (f !! 3%nat) (f !! 4%nat)
                  | None => lat_deg o
                  end;
       lon_deg := match f !! 6%nat with
                  | Some _ => nmea_deg_to_decimal (f !! 5%nat) (f !! 6%nat)
                  | None => lon_deg o
                  end;
       time_utc := match f !! 1%nat with
                   | Some t => take 15 t
                   | None => time_utc o
                   end |}.
Proof.
  intros Hall. unfold decode_rmc, copy_time.
  rewrite !filled_lookup by exact Hall. rewrite slot_filled.
  destruct (f !! 1%nat), (f !! 2%nat) as [t|], (f !! 6%nat);
    try destruct (Ascii.eqb (deref t) "A"); destruct o; reflexivity.
Qed.

(** C10: a line of 256 characters or more is its first 255 characters,
    [copy], followed by the others, [over].  The line is accepted exactly
    when the checksum rule holds of the whole line [copy ++ over]: a
    dollar, characters without a star, a star, and two hexadecimal digits
    whose value is the XOR of those characters.  What an accepted line
    stores is decoded from [copy] alone: the type is read in its first six
    characters, and the values are taken from the fields of [copy] that
    are not empty, of which the first 16 are looked at.  Whatever [over]
    holds beyond the checksum test is not decoded. *)
Theorem nmea_long_line_decoded_from_copy (copy over : cstring)
        (out : nmea_info_t) :
  List.length copy = 255%nat ->
  let line := copy ++ over in
  let f := take 16 (List.filter nonempty (sentence_fields copy)) in
  (fst (nmea_parse_line (Some line) (Some out)) = true <->
   exists body h l rest a b,
     line = "$"%char :: body ++ "*"%char :: h :: l :: rest /\
     ("*"%char ∉ body) /\
     hex_value h = Some a /\ hex_value l = Some b /\
     16 * a + b = xor_all body) /\
  (fst (nmea_parse_line (Some line) (Some out)) = true ->
   (take 6 copy = lit "$GPGGA" \/ take 6 copy = lit "$GNGGA" ->
    snd (nmea_parse_line (Some line) (Some out)) =
      Some {| has_fix := match f !! 6%nat with
                         | Some t => 0 <? atoi t
                         | None => has_fix out
                         end;
              fix_quality := match f !! 6%nat with
                             | Some t => atoi t
                             | None => fix_quality out
                             end;
              sats := match f !! 7%nat with
                      | Some t => atoi t
                      | None => sats out
                      end;
              lat_deg := match f !! 5%nat with
                         | Some _ =>
                             nmea_deg_to_decimal (f !! 2%nat) (f !! 3%nat)
                         | None => lat_deg out
                         end;
              lon_deg := match f !! 5%nat with
                         | Some _ =>
                             nmea_deg_to_decimal (f !! 4%nat) (f !! 5%nat)
                         | None => lon_deg out
                         end;
              time_utc := match f !! 1%nat with
                          | Some t => take 15 t
                          | None => time_utc out
                          end |}) /\
   (take 6 copy = lit "$GPRMC" \/ take 6 copy = lit "$GNRMC" ->
    snd (nmea_parse_line (Some line) (Some out)) =
      Some {| has_fix := match f !! 2%nat with
                         | Some t => if Ascii.eqb (deref t) "A" then true
                                     else has_fix out
                         | None => has_fix out
                         end;
              fix_quality := fix_quality out;
              sats := sats out;
              lat_deg := match f !! 6%nat with
                         | Some _ =>
                             nmea_deg_to_decimal (f !! 3%nat) (f !! 4%nat)
                         | None => lat_deg out
                         end;
              lon_deg := match f !! 6%nat with
                         | Some _ =>
                             nmea_deg_to_decimal (f !! 5%nat) (f !! 6%nat)
                         | None => lon_deg out
                         end;
              time_utc := match f !! 1%nat with
                          | Some t => take 15 t
                          | None => time_utc out
                          end |}) /\
   (take 6 copy <> lit "$GPGGA" -> take 6 copy <> lit "$GNGGA" ->
    take 6 copy <> lit "$GPRMC" -> take 6 copy <> lit "$GNRMC" ->
    snd (nmea_parse_line (Some line) (Some out)) = Some out)).
Proof.
  intros Hlen line f. split.
  - rewrite nmea_parse_line_returns. apply checksum_ok_form.
  - rewrite nmea_parse_line_returns. intros Hok.
    destruct (nmea_parse_accepted copy over out Hlen Hok)
      as (c' & Hcopy & Hparse).
    unfold line. rewrite Hparse. fold f.
    assert (Htag : forall tag : string,
              take 6 copy = "$"%char :: lit tag <->
              take 5 c' = lit tag).
    { intros tag. rewrite Hcopy. cbn [take]. split; [intros [= H] | intros H].
      - exact H.
      - rewrite H. reflexivity. }
    pose proof (tokens_not_empty 16 (sentence_fields copy)) as Hall.
    fold f in Hall.
    split; [|split].
    + intros Hgga.
      assert (E : bool_decide (take 5 c' = lit "GPGGA")
                  || bool_decide (take 5 c' = lit "GNGGA") = true).
      { destruct Hgga as [H|H].
        - apply (Htag "GPGGA"%string) in H.
          rewrite (bool_decide_eq_true_2 _ H). reflexivity.
        - apply (Htag "GNGGA"%string) in H.
          rewrite (bool_decide_eq_true_2 _ H). apply orb_true_r. }
      rewrite E. cbn [snd]. rewrite decode_gga_explicit by exact Hall.
      reflexivity.
    + intros Hrmc.
      assert (E : bool_decide (take 5 c' = lit "GPGGA")
                  || bool_decide (take 5 c' = lit "GNGGA") = false /\
                  bool_decide (take 5 c' = lit "GPRMC")
                  || bool_decide (take 5 c' = lit "GNRMC") = true).
      { destruct Hrmc as [H|H].
        - apply (Htag "GPRMC"%string) in H.
          rewrite (bool_decide_eq_true_2 _ H).
          rewrite !bool_decide_eq_false_2 by (rewrite H; discriminate).
          split; reflexivity.
        - apply (Htag "GNRMC"%string) in H.
          rewrite (bool_decide_eq_true_2 _ H).
          rewrite !bool_decide_eq_false_2 by (rewrite H; discriminate).
          split; reflexivity. }
      destruct E as [-> ->]. cbn [snd].
      rewrite decode_rmc_explicit by exact Hall. reflexivity.
    + intros H1 H2 H3 H4.
      rewrite !bool_decide_eq_false_2; [reflexivity| | | |];
        intros H; apply Htag in H; contradiction.
Qed.

Lemma nmea_long_line_decoded_from_copy_witness :
  let copy := lit "$GPGGA,123519," ++ replicate 241 "0"%char in
  let over := replicate 9 "0"%char ++ lit ",N,01131.000,E,1,08*69" in
  fst (nmea_parse_line (Some (copy ++ over)) (Some nmea_zero)) = true /\
  sentence_fields (copy ++ over) !! 6%nat = Some (lit "1") /\
  snd (nmea_parse_line (Some (copy ++ over)) (Some nmea_zero)) =
    Some {| has_fix := false; fix_quality := 0; sats := 0;
            lat_deg := Dlit 0; lon_deg := Dlit 0;
            time_utc := lit "123519" |}.
Proof.
  intros copy over.
  destruct (nmea_long_line_decoded_from_copy copy over nmea_zero eq_refl)
    as [Hacc Hdec].
  assert (Hok : fst (nmea_parse_line (Some (copy ++ over)) (Some nmea_zero))
                = true).
  { apply Hacc.
    exists (lit "GPGGA,123519," ++ replicate 250 "0"%char
              ++ lit ",N,01131.000,E,1,08"),
           "6"%char, "9"%char, [], 6, 9.
    split; [reflexivity|].
    split; [apply absent_by_computation; vm_compute; reflexivity|].
    split; [reflexivity|]. split; [reflexivity|].
    vm_compute. reflexivity. }
  split; [exact Hok|]. split; [vm_compute; reflexivity|].
  destruct (Hdec Hok) as (Hgga & _). rewrite Hgga by (left; reflexivity).
  vm_compute. reflexivity.
Defined.

(** The checksum test reads beyond the copy: of two lines with the same
    first 255 characters, one is accepted and one is not. *)
Example checksum_reads_past_the_copy :
  take 255 (long_gga ",N,01131.000,E,2,09*69")
    = take 255 (long_gga ",N,01131.000,E,1,08*69") /\
  fst (nmea_parse_line (Some (long_gga ",N,01131.000,E,1,08*69"))
                       (Some nmea_zero)) = true /\
  fst (nmea_parse_line (Some (long_gga ",N,01131.000,E,2,09*69"))
                       (Some nmea_zero)) = false.
Proof. repeat split; vm_compute; reflexivity. Qed.

(** The fields beyond the copy are lost: the quality [1] and the eight
    satellites of this accepted sentence are not stored, and the time is. *)
Example fields_past_the_copy_are_lost :
  sentence_fields (long_gga ",N,01131.000,E,1,08*69") !! 6%nat
    = Some (lit "1") /\
  exists o,
    nmea_parse_line (Some (long_gga ",N,01131.000,E,1,08*69"))
                    (Some nmea_zero) = (true, Some o) /\
    time_utc o = lit "123519" /\ fix_quality o = 0 /\ sats o = 0 /\
    has_fix o = false.
Proof.
  split; [vm_compute; reflexivity|].
  eexists. split; [vm_compute; reflexivity|]. repeat split.
Qed.

End NmeaFacts.

(** * Further properties *)

(** ** The bit reader: sessions, alignment, round trip *)

Section BitStreamSessions.
Import BitStream.

(** A read that fits, stated once for the proofs below. *)
Lemma read_in_stream (parser : BitParser) (num_bits : Z) :
  parser_ok parser -> buffer_covers parser ->
  1 <= num_bits <= 32 ->
  bit_pos parser + num_bits <= bit_length parser ->
  exists value,
    bit_parser_read parser num_bits =
      Returns (value, set_bit_pos parser (bit_pos parser + num_bits)) /\
    0 <= value < 2 ^ num_bits /\
    forall j, 0 <= j < num_bits ->
      Z.testbit value (num_bits - 1 - j) =
        stream_bit (data parser) (bit_pos parser + j).
Proof.
  intros [Hpos Hmax] Hcov Hn Hfit.
  unfold bit_parser_read.
  destruct (Z.eqb_spec num_bits 0); [lia|].
  destruct (Z.ltb_spec 32 num_bits); [lia|]. cbn [orb].
  rewrite size_t_small by lia.
  destruct (Z.ltb_spec (bit_length parser) (bit_pos parser + num_bits));
    [lia|].
  destruct (read_loop_spec parser ltac:(lia) Hmax Hcov
              (Z.to_nat num_bits) 0 0) as (v & Hrun & Hb & Hbits);
    try (rewrite ?Z2Nat.id by lia; simpl; lia).
  rewrite Z2Nat.id in * by lia. rewrite Z.add_0_l in Hb. rewrite Hrun.
  exists v. split; [reflexivity|]. split; [exact Hb|].
  intros j Hj. rewrite Hbits by lia.
  destruct (Z.ltb_spec (num_bits - 1 - j) num_bits); [|lia].
  f_equal. lia.
Qed.

Lemma size_t_range z : 0 <= size_t z <= SIZE_MAX.
Proof.
  unfold size_t, SIZE_MAX.
  pose proof (Z.mod_pos_bound z (2 ^ 64) ltac:(lia)). lia.
Qed.

(** Whatever is requested, a read that returns leaves the cursor inside
    the stream and the buffer and its length as they were. *)
Lemma bit_parser_read_in_stream parser num_bits value parser' :
  parser_ok parser ->
  bit_parser_read parser num_bits = Returns (value, parser') ->
  parser_ok parser' /\
  data parser' = data parser /\ bit_length parser' = bit_length parser.
Proof.
  intros Hok. unfold bit_parser_read.
  destruct ((num_bits =? 0) || (32 <? num_bits));
    [intros [= _ <-]; auto|].
  destruct (Z.ltb_spec (bit_length parser)
                       (size_t (bit_pos parser + num_bits)));
    [intros [= _ <-]; auto|].
  destruct (read_loop _ _ 0 0); [|discriminate].
  intros [= _ <-]. destruct Hok as [Hpos Hmax].
  pose proof (size_t_range (bit_pos parser + num_bits)).
  unfold parser_ok. cbn. repeat split; lia.
Qed.

(** X1: in every session of reads, skips and resets on a stream that ends
    at least 32 bits below [SIZE_MAX] and whose buffer holds its bits,
    every call returns, the cursor stays between 0 and [bit_length], and
    the buffer and the bit length are never changed. *)
Theorem parser_session_stays_in_stream (parser : BitParser)
        (ops : list parser_op) :
  parser_ok parser -> buffer_covers parser ->
  bit_length parser + 32 <= SIZE_MAX ->
  exists parser',
    parser_run parser ops = Returns parser' /\
    parser_ok parser' /\
    data parser' = data parser /\ bit_length parser' = bit_length parser.
Proof.
  revert parser. induction ops as [|o ops IH]; intros parser Hok Hcov Hfar.
  - exists parser. auto.
  - cbn [parser_run].
    assert (Hstep : exists p1, parser_step parser o = Returns p1 /\
              parser_ok p1 /\ data p1 = data parser /\
              bit_length p1 = bit_length parser).
    { destruct o as [n|n|]; cbn [parser_step].
      - destruct (bit_parser_read parser n) as [[v p1]|] eqn:E.
        + exists p1. split; [reflexivity|].
          apply (bit_parser_read_in_stream _ _ _ _ Hok E).
        + exfalso. revert E. unfold bit_parser_read.
          destruct (Z.eqb_spec n 0); [discriminate|].
          destruct (Z.ltb_spec 32 n); [discriminate|]. cbn [orb].
          destruct (Z.ltb_spec (bit_length parser)
                               (size_t (bit_pos parser + n)));
            [discriminate|].
          destruct (Z.le_gt_cases n 0) as [Hneg|Hposn].
          * replace (Z.to_nat n) with O by lia. discriminate.
          * destruct Hok as [Hpos Hmax].
            rewrite size_t_small in * by lia.
            destruct (read_in_stream parser n (conj Hpos Hmax) Hcov
                        ltac:(lia) ltac:(lia)) as (v & Hv & _).
            unfold bit_parser_read in Hv.
            destruct (Z.eqb_spec n 0); [lia|].
            destruct (Z.ltb_spec 32 n); [lia|]. cbn [orb] in Hv.
            rewrite size_t_small in Hv by lia.
            destruct (Z.ltb_spec (bit_length parser) (bit_pos parser + n));
              [lia|].
            destruct (read_loop parser (Z.to_nat n) 0 0); discriminate.
      - exists (bit_parser_skip parser n). split; [reflexivity|].
        split; [apply bit_parser_skip_in_stream, Hok|].
        unfold bit_parser_skip.
        destruct (size_t (bit_pos parser + n) <=? bit_length parser);
          auto.
      - exists (bit_parser_reset parser). split; [reflexivity|].
        destruct Hok as [Hpos Hmax].
        unfold parser_ok, bit_parser_reset. cbn. repeat split; lia. }
    destruct Hstep as (p1 & -> & Hok1 & Hd1 & Hl1).
    destruct (IH p1 Hok1) as (p2 & Hrun & Hok2 & Hd2 & Hl2).
    + unfold buffer_covers in *. rewrite Hd1, Hl1. exact Hcov.
    + rewrite Hl1. exact Hfar.
    + exists p2. split; [exact Hrun|]. split; [exact Hok2|].
      split; congruence.
Qed.

Lemma parser_session_stays_in_stream_witness :
  exists parser',
    parser_run (bit_parser_init [165; 60] 16)
               [Read 3; Skip 100; Read 1; Reset; Skip SIZE_MAX; Read 12]
      = Returns parser' /\
    parser_ok parser' /\
    data parser' = data (bit_parser_init [165; 60] 16) /\
    bit_length parser' = bit_length (bit_parser_init [165; 60] 16).
Proof.
  apply (parser_session_stays_in_stream (bit_parser_init [165; 60] 16)).
  - unfold parser_ok, SIZE_MAX. cbn. lia.
  - unfold buffer_covers. cbn. lia.
  - unfold SIZE_MAX. cbn. lia.
Defined.

Lemma no_bit_above x n m : 0 <= x < 2 ^ n -> 0 <= n <= m ->
  Z.testbit x m = false.
Proof.
  intros Hx Hm. rewrite <- (Z.mod_small x (2 ^ n)) by lia.
  apply Z.mod_pow2_bits_high. lia.
Qed.

(** X2: an 8-bit read at a cursor that is a multiple of 8 returns the byte
    under the cursor and moves to the next byte. *)
Theorem aligned_read_returns_the_byte (parser : BitParser) (k b : Z) :
  parser_ok parser -> buffer_covers parser ->
  0 <= k -> bit_pos parser = 8 * k ->
  bit_pos parser + 8 <= bit_length parser ->
  data parser !! Z.to_nat k = Some b -> 0 <= b < 256 ->
  bit_parser_read parser 8 =
    Returns (b, set_bit_pos parser (8 * (k + 1))).
Proof.
  intros Hok Hcov Hk Hpos Hfit Hb Hrange.
  destruct (read_in_stream parser 8 Hok Hcov ltac:(lia) Hfit)
    as (v & -> & Hv & Hbits).
  assert (v = b) as ->.
  { apply Z.bits_inj'. intros m Hm.
    destruct (Z.lt_ge_cases m 8) as [Hlow|Hhigh].
    - replace m with (8 - 1 - (7 - m)) at 1 by lia.
      rewrite Hbits by lia. unfold stream_bit. rewrite Hpos.
      replace ((8 * k + (7 - m)) / 8) with k
        by (apply (Z.div_unique _ 8 k (7 - m)); lia).
      replace ((8 * k + (7 - m)) mod 8) with (7 - m)
        by (apply (Z.mod_unique _ 8 k (7 - m)); lia).
      rewrite Hb. f_equal. lia.
    - rewrite (no_bit_above v 8 m), (no_bit_above b 8 m) by lia.
      reflexivity. }
  do 2 f_equal. rewrite Hpos. f_equal. lia.
Qed.

Lemma aligned_read_returns_the_byte_witness :
  bit_parser_read (mkBitParser [165; 60; 7] 24 8) 8 =
    Returns (60, set_bit_pos (mkBitParser [165; 60; 7] 24 8) (8 * (1 + 1))).
Proof.
  apply (aligned_read_returns_the_byte (mkBitParser [165; 60; 7] 24 8) 1 60).
  - unfold parser_ok, SIZE_MAX. cbn. lia.
  - unfold buffer_covers. cbn. lia.
  - lia.
  - reflexivity.
  - cbn. lia.
  - reflexivity.
  - lia.
Defined.

Lemma map_seq_from {A} (f : nat -> A) (x y : nat) :
  map f (seq x y) = map (fun i => f (x + i)%nat) (seq 0 y).
Proof.
  revert x. induction y as [|y IH]; intros x; [reflexivity|].
  cbn [seq map]. rewrite Nat.add_0_r. f_equal.
  rewrite IH, <- seq_shift, map_map.
  apply map_ext. intros i. f_equal. lia.
Qed.

Lemma stream_bits_app buf from a b :
  0 <= a -> 0 <= b ->
  stream_bits buf from (a + b) =
    stream_bits buf from a ++ stream_bits buf (from + a) b.
Proof.
  intros Ha Hb. unfold stream_bits.
  rewrite Z2Nat.inj_add, seq_app, map_app by lia. f_equal.
  rewrite map_seq_from. apply map_ext. intros i. f_equal. lia.
Qed.

Lemma sum_widths_bounds widths :
  Forall (fun w => 1 <= w <= 32) widths -> 0 <= sum_widths widths.
Proof.
  induction 1 as [|w ws Hw _ IH]; cbn; [lia|].
  unfold sum_widths in IH. lia.
Qed.

(** X3: fields read one after the other, each 1 to 32 bits wide and all
    within the stream, spell out the stream: the values, each written with
    its width most significant bit first, are the bits of the buffer from
    the cursor on, and the cursor ends after the last of them. *)
Theorem read_fields_round_trip (widths : list Z) :
  forall parser : BitParser,
  parser_ok parser -> buffer_covers parser ->
  Forall (fun w => 1 <= w <= 32) widths ->
  bit_pos parser + sum_widths widths <= bit_length parser ->
  exists values,
    read_fields parser widths =
      Returns (values,
               set_bit_pos parser (bit_pos parser + sum_widths widths)) /\
    List.length values = List.length widths /\
    concat (zip_with bits_msb widths values) =
      stream_bits (data parser) (bit_pos parser) (sum_widths widths).
Proof.
  induction widths as [|w ws IH]; intros parser Hok Hcov Hall Hfit.
  - exists []. cbn. rewrite Z.add_0_r. destruct parser. auto.
  - apply Forall_cons in Hall as [Hw Hws].
    pose proof (sum_widths_bounds ws Hws) as Hsum.
    cbn [sum_widths foldr] in *. fold (sum_widths ws) in *.
    destruct (read_in_stream parser w Hok Hcov Hw ltac:(lia))
      as (v & Hread & Hv & Hbits).
    cbn [read_fields]. rewrite Hread.
    set (p1 := set_bit_pos parser (bit_pos parser + w)).
    destruct (IH p1) as (vs & Hrest & Hlen & Hcat).
    + destruct Hok as [Hpos Hmax]. unfold parser_ok, p1. cbn. lia.
    + exact Hcov.
    + exact Hws.
    + unfold p1. cbn. lia.
    + rewrite Hrest. exists (v :: vs). split.
      { unfold p1, set_bit_pos. cbn. do 3 f_equal. lia. }
      split; [cbn; congruence|].
      cbn [zip_with concat]. rewrite Hcat.
      rewrite stream_bits_app by lia. f_equal.
      unfold bits_msb, stream_bits. apply map_ext_in.
      intros j Hj. apply in_seq in Hj. rewrite Hbits by lia.
      reflexivity.
Qed.

Lemma read_fields_round_trip_witness :
  exists values,
    read_fields (bit_parser_init [165; 60] 13) [3; 1; 9] =
      Returns (values,
               set_bit_pos (bit_parser_init [165; 60] 13)
                 (bit_pos (bit_parser_init [165; 60] 13)
                    + sum_widths [3; 1; 9])) /\
    List.length values = List.length [3; 1; 9] /\
    concat (zip_with bits_msb [3; 1; 9] values) =
      stream_bits (data (bit_parser_init [165; 60] 13))
        (bit_pos (bit_parser_init [165; 60] 13)) (sum_widths [3; 1; 9]).
Proof.
  apply (read_fields_round_trip [3; 1; 9] (bit_parser_init [165; 60] 13)).
  - unfold parser_ok, SIZE_MAX. cbn. lia.
  - unfold buffer_covers. cbn. lia.
  - repeat constructor; lia.
  - cbn. lia.
Defined.

End BitStreamSessions.

(** ** The bounded queue: backlog, fresh memory, destruction *)

Section RingQueueLifecycle.
Import RingQueue.

(** X27: what a successful [queue_init] leaves: the capacity asked for,
    counters at 0, and a block whose number of slots is the wrapped byte
    count divided by the size of an item.  That is [cap] slots when the
    array of [cap] items fits in a [size_t], and fewer than [cap] when it
    does not. *)
Theorem queue_init_slots q0 cap heap s :
  0 < cap <= SIZE_MAX ->
  queue_init (Some q0) cap heap = (true, Some s) ->
  exists a,
    s = mkQueue (Some a) cap 0 0 0 /\
    Z.of_nat (List.length a) =
      size_t (sizeof_QueueItem * cap) / sizeof_QueueItem /\
    (sizeof_QueueItem * cap <= SIZE_MAX -> Z.of_nat (List.length a) = cap) /\
    (SIZE_MAX < sizeof_QueueItem * cap -> Z.of_nat (List.length a) < cap).
Proof.
  intros Hcap. unfold queue_init, malloc_items.
  destruct (Z.eqb_spec cap 0); [lia|].
  pose proof (size_t_range (sizeof_QueueItem * cap)) as Hb.
  set (bytes := size_t (sizeof_QueueItem * cap)) in *.
  destruct (Z.ltb_spec (sizeof_QueueItem * Z.of_nat (List.length heap))
                       bytes) as [|Hfree]; [discriminate|].
  intros [= <-]. eexists. split; [reflexivity|].
  assert (Hq : 0 <= bytes / sizeof_QueueItem <= Z.of_nat (List.length heap)).
  { unfold sizeof_QueueItem in *. split.
    - apply Z.div_pos; lia.
    - apply Z.div_le_upper_bound; lia. }
  assert (Hlen : Z.of_nat (List.length
                   (take (Z.to_nat (bytes / sizeof_QueueItem)) heap)) =
                 bytes / sizeof_QueueItem).
  { rewrite length_take_le by lia. lia. }
  rewrite Hlen. split; [reflexivity|]. split.
  - intros Hfit. unfold bytes.
    apply (malloc_request_no_wrap cap); [lia | exact Hfit].
  - intros Hwrap. apply Z.div_lt_upper_bound.
    + unfold sizeof_QueueItem. lia.
    + lia.
Qed.

Lemma queue_init_slots_witness :
  exists a,
    mkQueue (Some (replicate 3 (demo_item 9))) 3 0 0 0
      = mkQueue (Some a) 3 0 0 0 /\
    Z.of_nat (List.length a) =
      size_t (sizeof_QueueItem * 3) / sizeof_QueueItem /\
    (sizeof_QueueItem * 3 <= SIZE_MAX -> Z.of_nat (List.length a) = 3) /\
    (SIZE_MAX < sizeof_QueueItem * 3 -> Z.of_nat (List.length a) < 3).
Proof.
  apply (queue_init_slots (mkQueue None 7 7 7 7) 3
           (replicate 5 (demo_item 9))).
  - unfold SIZE_MAX. lia.
  - reflexivity.
Defined.

(** X25: when the array of [cap] items fits in a [size_t], on a fresh
    queue of capacity [cap], [cap] enqueues succeed, one more fails, and
    [cap] dequeues then succeed, deliver the items in the order of their
    arrival, and leave the queue empty. *)
Theorem queue_fill_then_drain q0 cap heap s scratch xs extra :
  0 < cap <= SIZE_MAX ->
  sizeof_QueueItem * cap <= SIZE_MAX ->
  queue_init (Some q0) cap heap = (true, Some s) ->
  Z.of_nat (List.length xs) = cap ->
  exists s',
    run scratch s
        (map Enq xs ++ [Enq extra] ++ replicate (Z.to_nat cap) Deq) =
      Returns (map (fun x => Enqueued x true) xs
                 ++ [Enqueued extra false]
                 ++ map (fun x => Dequeued (Some x)) xs, s') /\
    queue_is_empty (Some s') = true.
Proof.
  intros Hcap Hfit Hinit Hxs.
  destruct (queue_init_holds _ _ _ _ Hcap Hfit Hinit) as [Hh Hc].
  destruct (run_refines scratch
              (map Enq xs ++ [Enq extra] ++ replicate (Z.to_nat cap) Deq)
              s [] Hh) as (s' & Hrun & _ & Hfin).
  rewrite Hc in *. exists s'.
  assert (E : fifo_run cap []
                (map Enq xs ++ [Enq extra] ++ replicate (Z.to_nat cap) Deq)
              = (map (fun x => Enqueued x true) xs
                   ++ [Enqueued extra false]
                   ++ map (fun x => Dequeued (Some x)) xs, [])).
  { rewrite fifo_run_app, fifo_run_enqueues by (cbn; lia).
    cbn [fst snd app fifo_run fifo_step].
    destruct (Z.ltb_spec (Z.of_nat (List.length xs)) cap); [lia|].
    replace (Z.to_nat cap) with (List.length xs) by lia.
    rewrite fifo_run_dequeues. reflexivity. }
  rewrite E in *. cbn [fst snd] in *. split; [exact Hrun|].
  destruct Hfin as (_ & _ & Hcount & _).
  unfold queue_is_empty. rewrite Hcount. reflexivity.
Qed.

Lemma queue_fill_then_drain_witness :
  exists s',
    run (demo_item 0) (mkQueue (Some (replicate 2 (demo_item 9))) 2 0 0 0)
        (map Enq [demo_item 1; demo_item 2] ++ [Enq (demo_item 3)]
           ++ replicate (Z.to_nat 2) Deq) =
      Returns (map (fun x => Enqueued x true) [demo_item 1; demo_item 2]
                 ++ [Enqueued (demo_item 3) false]
                 ++ map (fun x => Dequeued (Some x))
                        [demo_item 1; demo_item 2], s') /\
    queue_is_empty (Some s') = true.
Proof.
  apply (queue_fill_then_drain (mkQueue None 7 7 7 7) 2
           (replicate 5 (demo_item 9))).
  - unfold SIZE_MAX. lia.
  - unfold SIZE_MAX, sizeof_QueueItem. lia.
  - reflexivity.
  - reflexivity.
Defined.

(** X26: when the array of [cap] items fits in a [size_t], every run of
    enqueues and dequeues on a created queue shows the caller exactly what
    the list queue of the same capacity shows, and the items delivered
    are, in order, the first of the items accepted: the k-th successful
    dequeue returns the item of the k-th successful enqueue. *)
Theorem queue_fifo_order q0 cap heap s scratch ops :
  0 < cap <= SIZE_MAX ->
  sizeof_QueueItem * cap <= SIZE_MAX ->
  queue_init (Some q0) cap heap = (true, Some s) ->
  exists tr s',
    run scratch s ops = Returns (tr, s') /\
    tr = fst (fifo_run cap [] ops) /\
    delivered tr = take (List.length (delivered tr)) (accepted tr) /\
    forall k it, delivered tr !! k = Some it -> accepted tr !! k = Some it.
Proof.
  intros Hcap Hfit Hinit.
  destruct (queue_init_holds _ _ _ _ Hcap Hfit Hinit) as [Hh Hc].
  destruct (run_refines scratch ops s [] Hh) as (s' & Hrun & _ & _).
  rewrite Hc in *.
  exists (fst (fifo_run cap [] ops)), s'.
  split; [exact Hrun|]. split; [reflexivity|].
  pose proof (fifo_run_order cap ops []) as Ho. cbn [app] in Ho.
  rewrite Ho. split.
  - rewrite take_app_length. reflexivity.
  - intros k it Hk. rewrite lookup_app_l; [exact Hk|].
    apply lookup_lt_Some in Hk. exact Hk.
Qed.

Lemma queue_fifo_order_witness :
  exists tr s',
    run (demo_item 0) (mkQueue (Some (replicate 2 (demo_item 9))) 2 0 0 0)
        [Enq (demo_item 1); Enq (demo_item 2); Enq (demo_item 3); Deq;
         Enq (demo_item 4); Deq; Deq; Deq] = Returns (tr, s') /\
    tr = fst (fifo_run 2 []
                [Enq (demo_item 1); Enq (demo_item 2); Enq (demo_item 3);
                 Deq; Enq (demo_item 4); Deq; Deq; Deq]) /\
    delivered tr = take (List.length (delivered tr)) (accepted tr) /\
    forall k it, delivered tr !! k = Some it -> accepted tr !! k = Some it.
Proof.
  apply (queue_fifo_order (mkQueue None 7 7 7 7) 2
           (replicate 5 (demo_item 9))).
  - unfold SIZE_MAX. lia.
  - unfold SIZE_MAX, sizeof_QueueItem. lia.
  - reflexivity.
Defined.

(** X4: when the array of [cap] items fits in a [size_t], after any run
    on a created queue, [count] is the number of items accepted minus the
    number delivered, and the queue is full exactly when that backlog is
    the capacity. *)
Theorem queue_count_is_backlog q0 cap heap s scratch ops :
  0 < cap <= SIZE_MAX ->
  sizeof_QueueItem * cap <= SIZE_MAX ->
  queue_init (Some q0) cap heap = (true, Some s) ->
  exists tr s',
    run scratch s ops = Returns (tr, s') /\
    count s' = Z.of_nat (List.length (accepted tr))
               - Z.of_nat (List.length (delivered tr)) /\
    (queue_is_full (Some s') = true <->
     Z.of_nat (List.length (accepted tr))
       - Z.of_nat (List.length (delivered tr)) = cap).
Proof.
  intros Hcap Hfit Hinit.
  destruct (queue_init_holds _ _ _ _ Hcap Hfit Hinit) as [Hh Hc].
  destruct (run_refines scratch ops s [] Hh) as (s' & Hrun & Hc' & Hfin).
  rewrite Hc in *.
  exists (fst (fifo_run cap [] ops)), s'. split; [exact Hrun|].
  pose proof (fifo_run_order cap ops []) as Ho. cbn [app] in Ho.
  destruct Hfin as (_ & _ & Hcount & _).
  assert (Hn : count s' =
            Z.of_nat (List.length (accepted (fst (fifo_run cap [] ops))))
            - Z.of_nat (List.length (delivered (fst (fifo_run cap [] ops))))).
  { rewrite Ho, length_app, Hcount. lia. }
  split; [exact Hn|].
  unfold queue_is_full. rewrite <- Hn, Hc'. apply Z.eqb_eq.
Qed.

Lemma queue_count_is_backlog_witness :
  exists tr s',
    run (demo_item 0) (mkQueue (Some (replicate 2 (demo_item 9))) 2 0 0 0)
        [Enq (demo_item 1); Deq; Deq; Enq (demo_item 2); Enq (demo_item 3);
         Enq (demo_item 4)] = Returns (tr, s') /\
    count s' = Z.of_nat (List.length (accepted tr))
               - Z.of_nat (List.length (delivered tr)) /\
    (queue_is_full (Some s') = true <->
     Z.of_nat (List.length (accepted tr))
       - Z.of_nat (List.length (delivered tr)) = 2).
Proof.
  apply (queue_count_is_backlog (mkQueue None 7 7 7 7) 2
           (replicate 5 (demo_item 9))).
  - unfold SIZE_MAX. lia.
  - unfold SIZE_MAX, sizeof_QueueItem. lia.
  - reflexivity.
Defined.

(** X5: when the array of [cap] items fits in a [size_t], what the caller
    sees of a run does not depend on what the allocated slots contained,
    on the previous content of the queue structure, or on the content of
    the variable passed to dequeue: a slot is never delivered before it
    has been written. *)
Theorem queue_never_shows_old_memory
        q0 q0' cap heap heap' s s' scratch scratch' ops :
  0 < cap <= SIZE_MAX ->
  sizeof_QueueItem * cap <= SIZE_MAX ->
  queue_init (Some q0) cap heap = (true, Some s) ->
  queue_init (Some q0') cap heap' = (true, Some s') ->
  exists tr s1 s1',
    run scratch s ops = Returns (tr, s1) /\
    run scratch' s' ops = Returns (tr, s1').
Proof.
  intros Hcap Hfit Hinit Hinit'.
  destruct (queue_init_holds _ _ _ _ Hcap Hfit Hinit) as [Hh Hc].
  destruct (queue_init_holds _ _ _ _ Hcap Hfit Hinit') as [Hh' Hc'].
  destruct (run_refines scratch ops s [] Hh) as (s1 & Hrun & _).
  destruct (run_refines scratch' ops s' [] Hh') as (s1' & Hrun' & _).
  rewrite Hc in Hrun. rewrite Hc' in Hrun'.
  exists (fst (fifo_run cap [] ops)), s1, s1'. split; assumption.
Qed.

Lemma queue_never_shows_old_memory_witness :
  exists tr s1 s1',
    run (demo_item 0) (mkQueue (Some (replicate 2 (demo_item 9))) 2 0 0 0)
        [Enq (demo_item 1); Deq; Deq; Enq (demo_item 2)]
      = Returns (tr, s1) /\
    run (demo_item 5) (mkQueue (Some (replicate 2 (demo_item 8))) 2 0 0 0)
        [Enq (demo_item 1); Deq; Deq; Enq (demo_item 2)]
      = Returns (tr, s1').
Proof.
  apply (queue_never_shows_old_memory
           (mkQueue None 7 7 7 7) (mkQueue (Some [demo_item 3]) 1 0 0 1) 2
           (replicate 5 (demo_item 9)) (replicate 2 (demo_item 8))).
  - unfold SIZE_MAX. lia.
  - unfold SIZE_MAX, sizeof_QueueItem. lia.
  - reflexivity.
  - reflexivity.
Defined.

(** X6: a queue that owned an array and was destroyed reports both full
    and empty; an enqueue and a dequeue on it fail without touching the
    released array, and destroying it again changes nothing. *)
Theorem destroyed_queue_rejects (s : Queue) (it x : QueueItem) :
  items s <> None ->
  queue_is_full (queue_destroy (Some s)) = true /\
  queue_is_empty (queue_destroy (Some s)) = true /\
  queue_enqueue (queue_destroy (Some s)) (Some it) =
    Returns (false, queue_destroy (Some s)) /\
  queue_dequeue (queue_destroy (Some s)) (Some x) =
    Returns (false, queue_destroy (Some s), Some x) /\
  queue_destroy (queue_destroy (Some s)) = queue_destroy (Some s).
Proof.
  intros Hitems.
  assert (Hd : queue_destroy (Some s) = Some (mkQueue None 0 0 0 0)).
  { unfold queue_destroy. destruct (items s); [reflexivity | congruence]. }
  rewrite !Hd. split; [reflexivity|]. split; [reflexivity|].
  split; [reflexivity|]. split; reflexivity.
Qed.

Lemma destroyed_queue_rejects_witness :
  queue_is_full
    (queue_destroy (Some (mkQueue (Some [demo_item 1; demo_item 2]) 2 0 1 1)))
    = true /\
  queue_is_empty
    (queue_destroy (Some (mkQueue (Some [demo_item 1; demo_item 2]) 2 0 1 1)))
    = true /\
  queue_enqueue
    (queue_destroy (Some (mkQueue (Some [demo_item 1; demo_item 2]) 2 0 1 1)))
    (Some (demo_item 3)) =
    Returns (false,
      queue_destroy (Some (mkQueue (Some [demo_item 1; demo_item 2]) 2 0 1 1))) /\
  queue_dequeue
    (queue_destroy (Some (mkQueue (Some [demo_item 1; demo_item 2]) 2 0 1 1)))
    (Some (demo_item 4)) =
    Returns (false,
      queue_destroy (Some (mkQueue (Some [demo_item 1; demo_item 2]) 2 0 1 1)),
      Some (demo_item 4)) /\
  queue_destroy
    (queue_destroy (Some (mkQueue (Some [demo_item 1; demo_item 2]) 2 0 1 1))) =
  queue_destroy (Some (mkQueue (Some [demo_item 1; demo_item 2]) 2 0 1 1)).
Proof.
  apply (destroyed_queue_rejects
           (mkQueue (Some [demo_item 1; demo_item 2]) 2 0 1 1)
           (demo_item 3) (demo_item 4)).
  discriminate.
Defined.

End RingQueueLifecycle.

(** ** The sentence decoder: acceptance, sentence types, decoded fields *)

Section NmeaDecoding.
Import Nmea.

(** X7: [nmea_parse_line] returns true exactly for the lines that consist
    of a dollar, characters without a star, a star, and two hexadecimal
    digits (of either case) whose value is the XOR of those characters;
    whatever follows the two digits is not looked at. *)
Theorem nmea_accepts_exactly_checked_lines (line : cstring)
        (out : nmea_info_t) :
  fst (nmea_parse_line (Some line) (Some out)) = true <->
  exists body h l rest a b,
    line = "$"%char :: body ++ "*"%char :: h :: l :: rest /\
    ("*"%char ∉ body) /\
    hex_value h = Some a /\ hex_value l = Some b /\
    16 * a + b = xor_all body.
Proof. rewrite nmea_parse_line_returns. apply checksum_ok_form. Qed.

(** The type test of the code, in terms of the first six characters of an
    accepted line. *)
Lemma tag_of_copy tag line :
  String.length tag = 5%nat ->
  checksum_ok (Some line) = true ->
  starts_with tag
    (cut_at_star
       (if Ascii.eqb (deref (take 255 line)) "$"
        then List.tl (take 255 line) else take 255 line)) = true ->
  take 6 line = "$"%char :: lit tag.
Proof.
  intros Htag Hok Hs. destruct (checksum_ok_dollar _ Hok) as [p0 ->].
  change (take 255 ("$"%char :: p0)) with ("$"%char :: take 254 p0) in Hs.
  cbn [deref Ascii.eqb Bool.eqb List.tl] in Hs. cbv iota in Hs.
  unfold starts_with in Hs. apply bool_decide_eq_true_1 in Hs.
  assert (Hlen : List.length (lit tag) = 5%nat).
  { unfold lit. rewrite <- Htag. clear.
    induction tag as [|c tag IH]; [reflexivity|]. cbn. f_equal. exact IH. }
  destruct (cut_at_star_prefix (take 254 p0)) as [r Hr].
  assert (H5 : (5 <= List.length (cut_at_star (take 254 p0)))%nat).
  { rewrite <- Hs, length_take in Hlen. lia. }
  change (take 6 ("$"%char :: p0)) with ("$"%char :: take 5 p0). f_equal.
  rewrite <- Hs.
  replace (take 5 p0) with (take 5 (take 254 p0))
    by (rewrite take_take; reflexivity).
  rewrite Hr at 1. rewrite take_app_le by exact H5. reflexivity.
Qed.

(** X8: a line that does not begin with [$GPGGA] or [$GNGGA] never changes
    the fix quality or the satellite count, and never clears has-fix,
    whether or not it is accepted. *)
Theorem only_gga_changes_quality (line : cstring) (out : nmea_info_t) :
  take 6 line <> lit "$GPGGA" -> take 6 line <> lit "$GNGGA" ->
  exists out',
    snd (nmea_parse_line (Some line) (Some out)) = Some out' /\
    fix_quality out' = fix_quality out /\
    sats out' = sats out /\
    (has_fix out = true -> has_fix out' = true).
Proof.
  intros Hn1 Hn2. unfold nmea_parse_line.
  destruct (checksum_ok (Some line)) eqn:Hok; cbn [negb];
    [|exists out; auto].
  cbv zeta.
  destruct (starts_with "GPGGA" _) eqn:E1.
  { apply (tag_of_copy "GPGGA" line eq_refl Hok) in E1. contradiction. }
  destruct (starts_with "GNGGA" _) eqn:E2.
  { apply (tag_of_copy "GNGGA" line eq_refl Hok) in E2. contradiction. }
  cbn [orb].
  destruct (starts_with "GPRMC" _ || starts_with "GNRMC" _);
    [|exists out; auto].
  eexists. split; [reflexivity|].
  destruct (decode_rmc_frame out (tokenize 16
              (cut_at_star
                 (if Ascii.eqb (deref (take 255 line)) "$"
                  then List.tl (take 255 line) else take 255 line))))
    as (_ & Hq & Hs & _).
  split; [exact Hq|]. split; [exact Hs|].
  intros Hfix. rewrite decode_rmc_has_fix, Hfix.
  destruct (filled _ 2) as [t|]; [|reflexivity].
  destruct (Ascii.eqb (deref t) "A"); reflexivity.
Qed.

Lemma only_gga_changes_quality_witness :
  exists out',
    snd (nmea_parse_line
           (Some (lit "$GPRMC,123519,V,4807.038,N,01131.000,E,022.4,084.4,230394,003.1,W*7D"))
           (Some (mk_nmea_info true 2 9 (Dlit 0) (Dlit 0) [])))
      = Some out' /\
    fix_quality out' = fix_quality (mk_nmea_info true 2 9 (Dlit 0) (Dlit 0) [])
    /\
    sats out' = sats (mk_nmea_info true 2 9 (Dlit 0) (Dlit 0) []) /\
    (has_fix (mk_nmea_info true 2 9 (Dlit 0) (Dlit 0) []) = true ->
     has_fix out' = true).
Proof.
  apply (only_gga_changes_quality
           (lit "$GPRMC,123519,V,4807.038,N,01131.000,E,022.4,084.4,230394,003.1,W*7D")
           (mk_nmea_info true 2 9 (Dlit 0) (Dlit 0) [])).
  - discriminate.
  - discriminate.
Defined.

(** X9: a line that begins with none of [$GPGGA], [$GNGGA], [$GPRMC] and
    [$GNRMC] leaves the whole accumulator as it was; the return value is
    still the outcome of the checksum test. *)
Theorem other_sentences_leave_record (line : cstring) (out : nmea_info_t) :
  take 6 line <> lit "$GPGGA" -> take 6 line <> lit "$GNGGA" ->
  take 6 line <> lit "$GPRMC" -> take 6 line <> lit "$GNRMC" ->
  nmea_parse_line (Some line) (Some out) =
    (checksum_ok (Some line), Some out).
Proof.
  intros Hn1 Hn2 Hn3 Hn4. unfold nmea_parse_line.
  destruct (checksum_ok (Some line)) eqn:Hok; cbn [negb]; [|reflexivity].
  cbv zeta.
  destruct (starts_with "GPGGA" _) eqn:E1.
  { apply (tag_of_copy "GPGGA" line eq_refl Hok) in E1. contradiction. }
  destruct (starts_with "GNGGA" _) eqn:E2.
  { apply (tag_of_copy "GNGGA" line eq_refl Hok) in E2. contradiction. }
  destruct (starts_with "GPRMC" _) eqn:E3.
  { apply (tag_of_copy "GPRMC" line eq_refl Hok) in E3. contradiction. }
  destruct (starts_with "GNRMC" _) eqn:E4.
  { apply (tag_of_copy "GNRMC" line eq_refl Hok) in E4. contradiction. }
  reflexivity.
Qed.

Lemma other_sentences_leave_record_witness :
  nmea_parse_line (Some (lit "$GPGSA,A,3,04,05,,09,12,,,24,,,,,2.5,1.3,2.1*39"))
                  (Some (mk_nmea_info true 2 9 (Dlit 0) (Dlit 0) [])) =
    (checksum_ok (Some (lit "$GPGSA,A,3,04,05,,09,12,,,24,,,,,2.5,1.3,2.1*39")),
     Some (mk_nmea_info true 2 9 (Dlit 0) (Dlit 0) [])).
Proof.
  apply (other_sentences_leave_record
           (lit "$GPGSA,A,3,04,05,,09,12,,,24,,,,,2.5,1.3,2.1*39")
           (mk_nmea_info true 2 9 (Dlit 0) (Dlit 0) []));
    discriminate.
Defined.

(** As long as no field is empty, the tokens are the fields. *)
Lemma filter_keeps_prefix (l : list (list ascii)) : forall k,
  Forall (fun t => t <> []) (take k l) ->
  take k (List.filter nonempty l) = take k l.
Proof.
  induction l as [|t l IH]; intros k H; [destruct k; reflexivity|].
  destruct k as [|k]; [reflexivity|].
  cbn [take] in H. apply Forall_cons in H as [Ht Hl].
  destruct t; [congruence|]. cbn [List.filter nonempty take].
  f_equal. apply IH, Hl.
Qed.

Lemma tokens_of_copy (p : cstring) (k : nat) (pre : list (list ascii)) :
  (k <= 16)%nat -> List.length pre = k ->
  take k (fields p) = pre -> Forall (fun t => t <> []) pre ->
  exists rest, take 16 (tokens p) = pre ++ rest.
Proof.
  intros Hk Hlen Hpre Hall.
  exists (drop k (take 16 (tokens p))).
  rewrite <- (take_drop k (take 16 (tokens p))) at 1. f_equal.
  rewrite take_take. replace (k `min` 16)%nat with k by lia.
  unfold tokens. rewrite filter_keeps_prefix; rewrite Hpre; auto.
Qed.

(** X10: a fix-data sentence of at most 255 characters that passes the
    checksum and whose fields up to the satellite count are all present and
    not empty is decoded field by field: time from field 1 (its first 15
    characters), quality and satellites from the numbers in fields 6 and
    7, has-fix from quality > 0, and the position from fields 2 to 5.
    Nothing of the previous record remains. *)
Theorem gga_decodes_fields (line : cstring) (out : nmea_info_t)
        (f0 f1 f2 f3 f4 f5 f6 f7 : cstring) :
  checksum_ok (Some line) = true ->
  (List.length line <= 255)%nat ->
  take 5 f0 = lit "GPGGA" \/ take 5 f0 = lit "GNGGA" ->
  take 8 (sentence_fields line) = [f0; f1; f2; f3; f4; f5; f6; f7] ->
  Forall (fun t => t <> []) [f1; f2; f3; f4; f5; f6; f7] ->
  nmea_parse_line (Some line) (Some out) =
    (true,
     Some {| has_fix := 0 <? atoi f6;
             fix_quality := atoi f6;
             sats := atoi f7;
             lat_deg := nmea_deg_to_decimal (Some f2) (Some f3);
             lon_deg := nmea_deg_to_decimal (Some f4) (Some f5);
             time_utc := take 15 f1 |}).
Proof.
  intros Hok Hlen Htag Hfields Hall.
  rewrite nmea_parse_short_line by assumption. cbv zeta.
  unfold sentence_fields in Hfields.
  set (p := cut_at_star (List.tl line)) in *.
  assert (Hf0 : fields p !! 0%nat = Some f0).
  { rewrite <- (lookup_take_lt (fields p) 8 0) by lia.
    rewrite Hfields. reflexivity. }
  assert (Hs : starts_with "GPGGA" p || starts_with "GNGGA" p = true
               /\ f0 <> []).
  { destruct Htag as [Ht|Ht].
    - destruct (starts_with_first_field "GPGGA" _ _ eq_refl Hf0 Ht)
        as [-> Hn]. auto.
    - destruct (starts_with_first_field "GNGGA" _ _ eq_refl Hf0 Ht)
        as [-> Hn]. rewrite orb_true_r. auto. }
  destruct Hs as [-> Hn0].
  destruct (tokens_of_copy p 8 [f0; f1; f2; f3; f4; f5; f6; f7]
              ltac:(lia) eq_refl Hfields) as [rest ->].
  { constructor; assumption. }
  repeat match goal with
         | H : Forall _ (_ :: _) |- _ => apply Forall_cons in H as [? H]
         end.
  destruct f1, f2, f3, f4, f5, f6, f7; try congruence. reflexivity.
Qed.

Lemma gga_decodes_fields_witness :
  nmea_parse_line
    (Some (lit "$GPGGA,123519,4807.038,N,01131.000,E,1,08,0.9,545.4,M,46.9,M,,*47"))
    (Some (mk_nmea_info false 7 3 (Dlit 0) (Dlit 0) (lit "000000"))) =
    (true,
     Some {| has_fix := 0 <? atoi (lit "1");
             fix_quality := atoi (lit "1");
             sats := atoi (lit "08");
             lat_deg := nmea_deg_to_decimal (Some (lit "4807.038"))
                                            (Some (lit "N"));
             lon_deg := nmea_deg_to_decimal (Some (lit "01131.000"))
                                            (Some (lit "E"));
             time_utc := take 15 (lit "123519") |}).
Proof.
  apply (gga_decodes_fields _ _ (lit "GPGGA")).
  - reflexivity.
  - cbn. lia.
  - left. reflexivity.
  - reflexivity.
  - repeat constructor; discriminate.
Defined.

(** X11: a recommended-minimum sentence of at most 255 characters that
    passes the checksum and whose fields up to the longitude hemisphere
    are all present and not empty sets the time from field 1, the position
    from fields 3 to 6, and has-fix to true when the status begins with
    [A]; has-fix is otherwise kept, and quality and satellites always. *)
Theorem rmc_decodes_fields (line : cstring) (out : nmea_info_t)
        (f0 f1 f2 f3 f4 f5 f6 : cstring) :
  checksum_ok (Some line) = true ->
  (List.length line <= 255)%nat ->
  take 5 f0 = lit "GPRMC" \/ take 5 f0 = lit "GNRMC" ->
  take 7 (sentence_fields line) = [f0; f1; f2; f3; f4; f5; f6] ->
  Forall (fun t => t <> []) [f1; f2; f3; f4; f5; f6] ->
  nmea_parse_line (Some line) (Some out) =
    (true,
     Some {| has_fix := if Ascii.eqb (deref f2) "A" then true
                        else has_fix out;
             fix_quality := fix_quality out;
             sats := sats out;
             lat_deg := nmea_deg_to_decimal (Some f3) (Some f4);
             lon_deg := nmea_deg_to_decimal (Some f5) (Some f6);
             time_utc := take 15 f1 |}).
Proof.
  intros Hok Hlen Htag Hfields Hall.
  rewrite nmea_parse_short_line by assumption. cbv zeta.
  unfold sentence_fields in Hfields.
  set (p := cut_at_star (List.tl line)) in *.
  assert (Hf0 : fields p !! 0%nat = Some f0).
  { rewrite <- (lookup_take_lt (fields p) 7 0) by lia.
    rewrite Hfields. reflexivity. }
  assert (Hs : starts_with "GPGGA" p = false /\
               starts_with "GNGGA" p = false /\
               starts_with "GPRMC" p || starts_with "GNRMC" p = true /\
               f0 <> []).
  { destruct Htag as [Ht|Ht].
    - destruct (starts_with_first_field "GPRMC" _ _ eq_refl Hf0 Ht)
        as [Hs Hn].
      rewrite Hs. repeat split; try assumption;
        apply (starts_with_other "GPRMC"); (discriminate || assumption).
    - destruct (starts_with_first_field "GNRMC" _ _ eq_refl Hf0 Ht)
        as [Hs Hn].
      rewrite Hs, orb_true_r. repeat split; try assumption;
        apply (starts_with_other "GNRMC"); (discriminate || assumption). }
  destruct Hs as (-> & -> & -> & Hn0). cbn [orb].
  destruct (tokens_of_copy p 7 [f0; f1; f2; f3; f4; f5; f6]
              ltac:(lia) eq_refl Hfields) as [rest ->].
  { constructor; assumption. }
  repeat match goal with
         | H : Forall _ (_ :: _) |- _ => apply Forall_cons in H as [? H]
         end.
  destruct f1, f2, f3, f4, f5, f6; try congruence.
  unfold decode_rmc, copy_time, filled. cbn [lookup list_lookup app].
  cbn [deref]. destruct (Ascii.eqb _ "A"); reflexivity.
Qed.

Lemma rmc_decodes_fields_witness :
  nmea_parse_line
    (Some (lit "$GPRMC,123519,A,4807.038,N,01131.000,E,022.4,084.4,230394,003.1,W*6A"))
    (Some (mk_nmea_info false 7 3 (Dlit 0) (Dlit 0) (lit "000000"))) =
    (true,
     Some {| has_fix := if Ascii.eqb (deref (lit "A")) "A" then true
                        else has_fix (mk_nmea_info false 7 3 (Dlit 0)
                                        (Dlit 0) (lit "000000"));
             fix_quality := fix_quality (mk_nmea_info false 7 3 (Dlit 0)
                                           (Dlit 0) (lit "000000"));
             sats := sats (mk_nmea_info false 7 3 (Dlit 0) (Dlit 0)
                             (lit "000000"));
             lat_deg := nmea_deg_to_decimal (Some (lit "4807.038"))
                                            (Some (lit "N"));
             lon_deg := nmea_deg_to_decimal (Some (lit "01131.000"))
                                            (Some (lit "E"));
             time_utc := take 15 (lit "123519") |}).
Proof.
  apply (rmc_decodes_fields _ _ (lit "GPRMC")).
  - reflexivity.
  - cbn. lia.
  - left. reflexivity.
  - reflexivity.
  - repeat constructor; discriminate.
Defined.

Ltac decode_cases :=
  repeat match goal with
         | |- context [match ?x with _ => _ end] => destruct x
         end.

Lemma decode_time_utc o f :
  time_utc (decode_gga o f) = time_utc (copy_time o f) /\
  time_utc (decode_rmc o f) = time_utc (copy_time o f).
Proof. unfold decode_gga, decode_rmc. split; decode_cases; reflexivity. Qed.

Lemma copy_time_fits o f :
  (List.length (time_utc o) <= 15)%nat ->
  (List.length (time_utc (copy_time o f)) <= 15)%nat.
Proof.
  intros H. unfold copy_time. destruct (filled f 1); [|exact H].
  cbn [set_time_utc time_utc]. rewrite length_take. lia.
Qed.

(** X12: the time string of the accumulator never outgrows the 15
    characters that [time_utc] has room for besides its terminator,
    whatever line is decoded. *)
Theorem time_utc_fits_its_array (line : option cstring)
        (out out' : nmea_info_t) (ok : bool) :
  (List.length (time_utc out) <= 15)%nat ->
  nmea_parse_line line (Some out) = (ok, Some out') ->
  (List.length (time_utc out') <= 15)%nat.
Proof.
  intros Hfit. unfold nmea_parse_line.
  destruct line as [l|]; [|intros [= _ <-]; exact Hfit].
  destruct (negb (checksum_ok (Some l))); [intros [= _ <-]; exact Hfit|].
  cbv zeta.
  destruct (starts_with "GPGGA" _ || starts_with "GNGGA" _).
  { intros [= _ <-]. rewrite (proj1 (decode_time_utc _ _)).
    apply copy_time_fits, Hfit. }
  destruct (starts_with "GPRMC" _ || starts_with "GNRMC" _).
  { intros [= _ <-]. rewrite (proj2 (decode_time_utc _ _)).
    apply copy_time_fits, Hfit. }
  intros [= _ <-]. exact Hfit.
Qed.

Lemma time_utc_fits_its_array_witness :
  (List.length
     (time_utc (mk_nmea_info true 0 0 (Dlit 0) (Dlit 0)
                  (lit "1234567890.1234")))
   <= 15)%nat.
Proof.
  apply (time_utc_fits_its_array
           (Some (lit "$GPRMC,1234567890.1234567890,A*24"))
           nmea_zero
           (mk_nmea_info true 0 0 (Dlit 0) (Dlit 0) (lit "1234567890.1234"))
           true).
  - cbn. lia.
  - reflexivity.
Defined.

Lemma decode_gga_twice o f : decode_gga (decode_gga o f) f = decode_gga o f.
Proof.
  unfold decode_gga, copy_time. destruct (filled f 1), (filled f 6),
    (filled f 7), (5 <? List.length f)%nat; reflexivity.
Qed.

Lemma decode_rmc_twice o f : decode_rmc (decode_rmc o f) f = decode_rmc o f.
Proof.
  unfold decode_rmc, copy_time.
  destruct (filled f 1), (filled f 2) as [t|], (6 <? List.length f)%nat;
    try destruct (Ascii.eqb (deref t) "A"); reflexivity.
Qed.

(** X13: decoding the same line a second time changes nothing: a repeated
    sentence yields the accumulator that the first decoding left, and the
    same return value. *)
Theorem repeated_line_changes_nothing (line : option cstring)
        (out out' : nmea_info_t) (ok : bool) :
  nmea_parse_line line (Some out) = (ok, Some out') ->
  nmea_parse_line line (Some out') = (ok, Some out').
Proof.
  unfold nmea_parse_line.
  destruct line as [l|]; [|intros [= <- <-]; reflexivity].
  destruct (negb (checksum_ok (Some l))); [intros [= <- <-]; reflexivity|].
  cbv zeta.
  destruct (starts_with "GPGGA" _ || starts_with "GNGGA" _).
  { intros [= <- <-]. rewrite decode_gga_twice. reflexivity. }
  destruct (starts_with "GPRMC" _ || starts_with "GNRMC" _).
  { intros [= <- <-]. rewrite decode_rmc_twice. reflexivity. }
  intros [= <- <-]. reflexivity.
Qed.

Lemma repeated_line_changes_nothing_witness :
  nmea_parse_line
    (Some (lit "$GPGGA,123519,4807.038,N,01131.000,E,1,08,0.9,545.4,M,46.9,M,,*47"))
    (Some repeated_line_example) = (true, Some repeated_line_example).
Proof.
  apply (repeated_line_changes_nothing _ nmea_zero). reflexivity.
Defined.

(** *** Coordinates *)

Lemma index_of_dot (ip rest : cstring) :
  "."%char ∉ ip -> rest = [] \/ (exists frac, rest = "."%char :: frac) ->
  index_or_length "." (ip ++ rest) = Z.of_nat (List.length ip).
Proof.
  intros Hno Hrest. induction ip as [|c ip IH].
  - cbn [app List.length].
    destruct Hrest as [->|[frac ->]]; reflexivity.
  - apply not_elem_of_cons in Hno as [Hc Hno].
    cbn [app index_or_length List.length].
    destruct (Ascii.eqb_spec c "."); [congruence|].
    rewrite IH by exact Hno. lia.
Qed.

(** X14: a coordinate token made of one to three degree characters, two
    minute characters and, possibly, a dot and a fraction is converted as
    degrees plus minutes over 60, where the minutes are read from the two
    characters and the fraction; the hemispheres [S] and [W] negate the
    result. *)
Theorem coordinate_is_degrees_plus_minutes (deg mm rest : cstring)
        (hem : option cstring) :
  ("."%char ∉ deg) -> ("."%char ∉ mm) ->
  (1 <= List.length deg <= 3)%nat -> List.length mm = 2%nat ->
  rest = [] \/ (exists frac, rest = "."%char :: frac) ->
  nmea_deg_to_decimal (Some (deg ++ mm ++ rest)) hem =
    let val := Dadd (Datof deg) (Ddiv (Datof (mm ++ rest)) (Dlit 60)) in
    if hemisphere_negates hem then Dneg val else val.
Proof.
  intros Hdeg Hmm Hld Hlm Hrest.
  assert (Hidx : index_or_length "." (deg ++ mm ++ rest)
                 = Z.of_nat (List.length deg) + 2).
  { rewrite app_assoc, index_of_dot, length_app; [lia| |exact Hrest].
    intros Hin. apply elem_of_app in Hin as [?|?]; contradiction. }
  unfold nmea_deg_to_decimal.
  destruct (deg ++ mm ++ rest) as [|c s] eqn:E.
  { destruct deg; [cbn in Hld; lia | discriminate]. }
  cbv zeta. rewrite Hidx, <- E.
  replace (Z.of_nat (List.length deg) + 2 - 2)
    with (Z.of_nat (List.length deg)) by lia.
  destruct (Z.leb_spec (Z.of_nat (List.length deg)) 0); [lia|].
  destruct (Z.ltb_spec 3 (Z.of_nat (List.length deg))); [lia|].
  cbn [orb]. rewrite Nat2Z.id.
  rewrite take_app_length, drop_app_length. reflexivity.
Qed.

Lemma coordinate_is_degrees_plus_minutes_witness :
  nmea_deg_to_decimal (Some (lit "011" ++ lit "31" ++ lit ".000"))
                      (Some (lit "W")) =
    let val := Dadd (Datof (lit "011"))
                    (Ddiv (Datof (lit "31" ++ lit ".000")) (Dlit 60)) in
    if hemisphere_negates (Some (lit "W")) then Dneg val else val.
Proof.
  apply (coordinate_is_degrees_plus_minutes (lit "011") (lit "31")
           (lit ".000") (Some (lit "W"))).
  - apply absent_by_computation. reflexivity.
  - apply absent_by_computation. reflexivity.
  - cbn. lia.
  - reflexivity.
  - right. exists (lit "000"). reflexivity.
Defined.

(** X15: a coordinate token with fewer than three or more than five
    characters before the dot (or before its end, when it has no dot) is
    converted to 0.0, whatever the hemisphere. *)
Theorem coordinate_out_of_range_is_zero (ip rest : cstring)
        (hem : option cstring) :
  ("."%char ∉ ip) ->
  rest = [] \/ (exists frac, rest = "."%char :: frac) ->
  (List.length ip <= 2)%nat \/ (6 <= List.length ip)%nat ->
  nmea_deg_to_decimal (Some (ip ++ rest)) hem = Dlit 0.
Proof.
  intros Hip Hrest Hlen.
  pose proof (index_of_dot ip rest Hip Hrest) as Hidx.
  unfold nmea_deg_to_decimal.
  destruct (ip ++ rest) as [|c s] eqn:E; [reflexivity|].
  cbv zeta. rewrite Hidx.
  destruct (Z.leb_spec (Z.of_nat (List.length ip) - 2) 0); [reflexivity|].
  destruct (Z.ltb_spec 3 (Z.of_nat (List.length ip) - 2));
    [reflexivity | lia].
Qed.

Lemma coordinate_out_of_range_is_zero_witness :
  nmea_deg_to_decimal (Some (lit "1234567" ++ lit ".5")) (Some (lit "N"))
    = Dlit 0.
Proof.
  apply (coordinate_out_of_range_is_zero (lit "1234567") (lit ".5")
           (Some (lit "N"))).
  - apply absent_by_computation. reflexivity.
  - right. exists (lit "5"). reflexivity.
  - right. cbn. lia.
Defined.

End NmeaDecoding.

(** ** The read loop of the GPS handler *)

Section GpsHandlerFacts.
Import Nmea GpsHandler.

Lemma gps_feed_app st a b : gps_feed st (a ++ b) = gps_feed (gps_feed st a) b.
Proof. unfold gps_feed. apply fold_left_app. Qed.

(** The boundaries between the reads do not matter. *)
Lemma gps_feed_reads_concat chunks : forall st,
  gps_feed_reads st chunks = gps_feed st (concat chunks).
Proof.
  induction chunks as [|c chunks IH]; intros st; [reflexivity|].
  cbn [gps_feed_reads fold_left concat]. rewrite gps_feed_app.
  apply IH.
Qed.

(** Characters of a line are stored one after the other while they fit. *)
Lemma gps_feed_characters l : forall st,
  ("013"%char ∉ l) -> ("010"%char ∉ l) ->
  (List.length (line st) + List.length l <= 255)%nat ->
  gps_feed st l = set_line st (line st ++ l).
Proof.
  induction l as [|c l IH]; intros st Hcr Hlf Hlen.
  - cbn. rewrite app_nil_r. destruct st. reflexivity.
  - apply not_elem_of_cons in Hcr as [Hc1 Hcr].
    apply not_elem_of_cons in Hlf as [Hc2 Hlf].
    cbn [List.length] in Hlen.
    cbn [gps_feed fold_left]. unfold gps_feed_byte at 2.
    destruct (Ascii.eqb_spec c "013"); [congruence|].
    destruct (Ascii.eqb_spec c "010"); [congruence|].
    unfold llen. rewrite size_t_small by (unfold SIZE_MAX; lia).
    destruct (Z.ltb_spec (Z.of_nat (List.length (line st)) + 1) 256); [|lia].
    fold (gps_feed (set_line st (line st ++ [c])) l).
    rewrite IH; try assumption.
    + unfold set_line. cbn. rewrite <- app_assoc. reflexivity.
    + cbn [set_line line]. rewrite length_app. cbn. lia.
Qed.

Lemma c_string_plain l : zero ∉ l -> c_string l = l.
Proof.
  induction l as [|c l IH]; intros H; [reflexivity|].
  apply not_elem_of_cons in H as [Hc H]. cbn [c_string].
  destruct (Ascii.eqb_spec c zero); [congruence|]. f_equal. apply IH, H.
Qed.

Lemma gps_feed_line st l :
  plain_line l -> line st = [] ->
  gps_feed st (l ++ ["013"%char; "010"%char]) = stored st l.
Proof.
  intros (Hne & Hlen & Hcr & Hlf & Hnul) Hempty.
  rewrite gps_feed_app, (gps_feed_characters l st); try assumption;
    [|rewrite Hempty; cbn; lia].
  rewrite Hempty. cbn [app gps_feed fold_left].
  unfold gps_feed_byte at 2. cbn [Ascii.eqb Bool.eqb]. cbv iota.
  unfold gps_feed_byte. cbn [Ascii.eqb Bool.eqb]. cbv iota.
  unfold llen. cbn [set_line line].
  destruct (Z.ltb_spec 0 (Z.of_nat (List.length l)));
    [|destruct l; [congruence | cbn in *; lia]].
  unfold end_of_line, stored. cbn [set_line line info last last_idx last_cnt].
  rewrite c_string_plain by exact Hnul. reflexivity.
Qed.

Lemma gps_feed_wire ls : forall st,
  Forall plain_line ls -> line st = [] ->
  gps_feed st (wire ls) = fold_left stored ls st.
Proof.
  induction ls as [|l ls IH]; intros st Hall Hempty; [reflexivity|].
  apply Forall_cons in Hall as [Hl Hall].
  unfold wire. cbn [map concat]. fold (wire ls).
  rewrite gps_feed_app, gps_feed_line by assumption.
  cbn [fold_left]. apply IH; [exact Hall | reflexivity].
Qed.

Lemma stored_lines_info ls : forall st,
  info (fold_left stored ls st) = fold_left parse_into ls (info st) /\
  line (fold_left stored ls st) = match ls with [] => line st | _ => [] end.
Proof.
  induction ls as [|l ls IH]; intros st; [split; reflexivity|].
  cbn [fold_left]. destruct (IH (stored st l)) as [Hi Hl].
  split; [exact Hi|]. rewrite Hl. destruct ls; reflexivity.
Qed.

(** X16: when the serial port delivers complete lines, each followed by
    CR LF, not empty, at most 255 characters long and free of CR, LF and
    NUL, then however the bytes are split over the reads, the accumulator
    at the end is the result of decoding the lines one after the other,
    and no partial line is left in the buffer. *)
Theorem gps_reads_decode_each_line (ls : list (list ascii))
        (chunks : list (list ascii)) :
  Forall plain_line ls ->
  concat chunks = wire ls ->
  info (gps_feed_reads gps_start chunks) = fold_left parse_into ls nmea_zero
  /\ line (gps_feed_reads gps_start chunks) = [].
Proof.
  intros Hall Hwire.
  rewrite gps_feed_reads_concat, Hwire, gps_feed_wire by (auto; reflexivity).
  destruct (stored_lines_info ls gps_start) as [Hi Hl].
  split; [exact Hi|]. rewrite Hl. destruct ls; reflexivity.
Qed.

Lemma gps_reads_decode_each_line_witness :
  info (gps_feed_reads gps_start
          [lit "$GPGGA,123519,4807.038,N,01131.000,E,1,08,0.9,545.4,M,46.9,M,,*47"
             ++ ["013"%char];
           ["010"%char] ++ lit "$GPRMC,,V,,,";
           lit ",,,,,,,N*53" ++ ["013"%char; "010"%char]])
    = fold_left parse_into
        [lit "$GPGGA,123519,4807.038,N,01131.000,E,1,08,0.9,545.4,M,46.9,M,,*47";
         lit "$GPRMC,,V,,,,,,,,,,N*53"] nmea_zero
  /\ line (gps_feed_reads gps_start
          [lit "$GPGGA,123519,4807.038,N,01131.000,E,1,08,0.9,545.4,M,46.9,M,,*47"
             ++ ["013"%char];
           ["010"%char] ++ lit "$GPRMC,,V,,,";
           lit ",,,,,,,N*53" ++ ["013"%char; "010"%char]]) = [].
Proof.
  apply (gps_reads_decode_each_line
           [lit "$GPGGA,123519,4807.038,N,01131.000,E,1,08,0.9,545.4,M,46.9,M,,*47";
            lit "$GPRMC,,V,,,,,,,,,,N*53"]).
  - repeat constructor; try discriminate; try (cbn; lia);
      apply absent_by_computation; reflexivity.
  - reflexivity.
Defined.

(** X17: whatever bytes arrive, the number of characters held in the line
    buffer never exceeds 255, so the terminator written at [line[llen]]
    stays inside the 256 bytes of the array. *)
Theorem gps_line_buffer_never_overflows (bytes : list ascii) :
  forall st : gps_state,
  (List.length (line st) <= 255)%nat ->
  (List.length (line (gps_feed st bytes)) <= 255)%nat.
Proof.
  induction bytes as [|c bytes IH]; intros st Hlen; [exact Hlen|].
  cbn [gps_feed fold_left]. apply IH. unfold gps_feed_byte.
  destruct (Ascii.eqb c "013"); [exact Hlen|].
  destruct (Ascii.eqb c "010").
  { destruct (0 <? llen st); [cbn; lia | exact Hlen]. }
  unfold llen. rewrite size_t_small by (unfold SIZE_MAX; lia).
  destruct (Z.ltb_spec (Z.of_nat (List.length (line st)) + 1) 256).
  - cbn [set_line line]. rewrite length_app. cbn. lia.
  - cbn. lia.
Qed.

Lemma gps_line_buffer_never_overflows_witness :
  (List.length (line (gps_feed gps_start (replicate 300 "A"%char)))
   <= 255)%nat.
Proof.
  apply (gps_line_buffer_never_overflows (replicate 300 "A"%char) gps_start).
  cbn. lia.
Defined.

(** *** The ring of recent lines *)

Ltac five_slots st :=
  let l := fresh "slots" in
  destruct st as [? ? l ? ?]; cbn [last last_idx last_cnt] in *;
  destruct l as [|? [|? [|? [|? [|? [|? ?]]]]]]; try discriminate.

Ltac below_five i :=
  assert (i = 0 \/ i = 1 \/ i = 2 \/ i = 3 \/ i = 4) as
    [->|[->|[->|[->| ->]]]] by lia.

Lemma gps_log_tail_ring st :
  List.length (last st) = 5%nat ->
  0 <= last_idx st < 5 -> 0 <= last_cnt st <= 5 ->
  gps_log_tail st = take (Z.to_nat (last_cnt st)) (ring st).
Proof.
  intros Hlen Hidx Hcnt. unfold gps_log_tail, ring.
  five_slots st.
  assert (last_cnt0 = 0 \/ last_cnt0 = 1 \/ last_cnt0 = 2 \/ last_cnt0 = 3
          \/ last_cnt0 = 4 \/ last_cnt0 = 5)
    as [->|[->|[->|[->|[->| ->]]]]] by lia;
    below_five last_idx0; reflexivity.
Qed.

Lemma ring_stored st l :
  List.length (last st) = 5%nat -> 0 <= last_idx st < 5 ->
  ring (stored st l) = drop 1 (ring st) ++ [Some (take 127 l)] /\
  List.length (last (stored st l)) = 5%nat /\
  0 <= last_idx (stored st l) < 5.
Proof.
  intros Hlen Hidx. unfold ring, stored.
  five_slots st.
  below_five last_idx0; repeat split; try reflexivity;
    vm_compute; first [reflexivity | intro; discriminate].
Qed.

Lemma ring_after_lines ls :
  let st := fold_left stored ls gps_start in
  ring st = drop (List.length ls)
              (replicate 5 None ++ map (fun l => Some (take 127 l)) ls) /\
  last_cnt st = Z.of_nat (min (List.length ls) 5) /\
  List.length (last st) = 5%nat /\ 0 <= last_idx st < 5.
Proof.
  induction ls as [|l ls IH] using rev_ind.
  - cbn. repeat split; lia.
  - cbv zeta in *. rewrite fold_left_app. cbn [fold_left].
    destruct IH as (Hring & Hcnt & Hlen & Hidx).
    destruct (ring_stored (fold_left stored ls gps_start) l Hlen Hidx)
      as (Hr & Hl & Hi).
    rewrite Hr, Hring. repeat split; try assumption; try apply Hi.
    + rewrite length_app, map_app, app_assoc. cbn [List.length map].
      rewrite drop_drop.
      rewrite (drop_app_le
                 (replicate 5 None ++ map (fun l => Some (take 127 l)) ls))
        by (rewrite length_app, length_replicate, length_map; lia).
      reflexivity.
    + set (st0 := fold_left stored ls gps_start) in *.
      unfold stored. cbn [last_cnt]. rewrite Hcnt, length_app.
      cbn [List.length].
      destruct (Z.ltb_spec (Z.of_nat (min (List.length ls) 5)) 5); lia.
Qed.

(** X18: after complete lines (as in X16) the final [LOG:] loop prints,
    when five or more lines arrived, the last five of them in order of
    arrival, each cut to 127 characters.  When fewer than five arrived it
    starts from a slot that was never written: it prints as many slots as
    there were lines, beginning with the unwritten ones. *)
Theorem gps_log_tail_after_lines (ls : list (list ascii))
        (chunks : list (list ascii)) :
  Forall plain_line ls ->
  concat chunks = wire ls ->
  ((5 <= List.length ls)%nat ->
   gps_log_tail (gps_feed_reads gps_start chunks) =
     map (fun l => Some (take 127 l)) (drop (List.length ls - 5) ls)) /\
  ((List.length ls < 5)%nat ->
   gps_log_tail (gps_feed_reads gps_start chunks) =
     take (List.length ls)
          (replicate (5 - List.length ls) None
             ++ map (fun l => Some (take 127 l)) ls)).
Proof.
  intros Hall Hwire.
  rewrite gps_feed_reads_concat, Hwire, gps_feed_wire by (auto; reflexivity).
  destruct (ring_after_lines ls) as (Hring & Hcnt & Hlen & Hidx).
  cbv zeta in *.
  rewrite gps_log_tail_ring by (try assumption; lia).
  rewrite Hring, Hcnt, Nat2Z.id. split; intros Hm.
  - replace (min (List.length ls) 5) with 5%nat by lia.
    rewrite drop_app_ge by (rewrite length_replicate; lia).
    rewrite length_replicate, skipn_map.
    apply take_ge. rewrite length_map, length_drop. lia.
  - replace (min (List.length ls) 5) with (List.length ls) by lia.
    rewrite drop_app_le by (rewrite length_replicate; lia).
    rewrite drop_replicate. reflexivity.
Qed.

Lemma gps_log_tail_after_lines_witness :
  ((5 <= List.length [lit "$A"; lit "$B"])%nat ->
   gps_log_tail
     (gps_feed_reads gps_start
        [lit "$A" ++ ["013"%char; "010"%char] ++ lit "$B";
         ["013"%char; "010"%char]]) =
     map (fun l => Some (take 127 l))
         (drop (List.length [lit "$A"; lit "$B"] - 5) [lit "$A"; lit "$B"]))
  /\
  ((List.length [lit "$A"; lit "$B"] < 5)%nat ->
   gps_log_tail
     (gps_feed_reads gps_start
        [lit "$A" ++ ["013"%char; "010"%char] ++ lit "$B";
         ["013"%char; "010"%char]]) =
     take (List.length [lit "$A"; lit "$B"])
          (replicate (5 - List.length [lit "$A"; lit "$B"]) None
             ++ map (fun l => Some (take 127 l)) [lit "$A"; lit "$B"])).
Proof.
  apply (gps_log_tail_after_lines [lit "$A"; lit "$B"]).
  - repeat constructor; try discriminate; try (cbn; lia);
      apply absent_by_computation; reflexivity.
  - reflexivity.
Defined.

End GpsHandlerFacts.

(** ** The command table *)

Section CommandsFacts.
Import Nmea Commands.

Lemma not_among (e : effect) (l : list effect) :
  Forall (fun x => x <> e) l -> e ∉ l.
Proof.
  intros H Hin. rewrite Forall_forall in H. apply (H e Hin). reflexivity.
Qed.

(** X19: for any table in which only entries named [--help] lack a
    handler, the loop of [dispatch_command] never calls through a NULL
    pointer: it returns for every command string.  It executes a handler
    exactly when the command is not [--help] and the first entry with that
    name has a handler, and it passes the arguments on unchanged. *)
Theorem dispatch_never_calls_null (table : list Command)
        (cmd : list ascii) (argc : Z) (argv : list (list ascii)) :
  Forall (fun c => execute c = None -> name c = lit "--help") table ->
  exists effects,
    dispatch_in table cmd argc argv = Returns effects /\
    forall h a v,
      Execute h a v ∈ effects <->
      cmd <> lit "--help" /\ handler_of table cmd = Some h /\
      a = argc /\ v = argv.
Proof.
  intros Hall. induction table as [|c table IH].
  - eexists. split; [reflexivity|]. intros h a v. split.
    + intros Hin. exfalso. revert Hin. apply not_among.
      repeat constructor; discriminate.
    + intros (_ & Hd & _). discriminate.
  - apply Forall_cons in Hall as [Hc Hall].
    cbn [dispatch_in handler_of]. unfold same_string.
    destruct (bool_decide_reflect (cmd = name c)) as [Heq|Hne];
      [|apply IH, Hall].
    destruct (bool_decide_reflect (cmd = lit "--help")) as [Hhelp|Hnot].
    + eexists. split; [reflexivity|]. intros h a v. split.
      * intros Hin. exfalso. revert Hin. apply not_among.
        repeat constructor; discriminate.
      * intros (Hn & _). contradiction.
    + destruct (execute c) as [h'|] eqn:E.
      * eexists. split; [reflexivity|]. intros h a v. split.
        -- intros Hin. apply elem_of_cons in Hin as [Hin|Hin];
             [discriminate|].
           apply elem_of_cons in Hin as [Hin|Hin];
             [|apply elem_of_nil in Hin; contradiction].
           injection Hin as -> -> ->. auto.
        -- intros (_ & [= ->] & -> & ->). apply elem_of_cons. right.
           apply elem_of_cons. left. reflexivity.
      * exfalso. apply Hnot. rewrite Heq. apply Hc. reflexivity.
Qed.

Lemma dispatch_never_calls_null_witness :
  exists effects,
    dispatch_in commands (lit "--gps") 1 [lit "--gps"] = Returns effects /\
    forall h a v,
      Execute h a v ∈ effects <->
      lit "--gps" <> lit "--help" /\
      handler_of commands (lit "--gps") = Some h /\
      a = 1 /\ v = [lit "--gps"].
Proof.
  apply (dispatch_never_calls_null commands (lit "--gps") 1 [lit "--gps"]).
  repeat constructor; cbn; congruence.
Defined.

(** The three ways through the table of the program. *)
Lemma dispatch_in_commands (c : list ascii) (argc : Z)
      (argv : list (list ascii)) :
  (exists h, c = command_name h /\
     dispatch_in commands c argc argv =
       Returns [InfoDispatching c; Execute h argc argv]) \/
  ((forall h, c <> command_name h) /\
   (dispatch_in commands c argc argv = Returns [PrintUsage] \/
    dispatch_in commands c argc argv = Returns [WarnUnknown c; PrintUsage])).
Proof.
  unfold commands. cbn [dispatch_in name execute]. unfold same_string.
  destruct (bool_decide_reflect (c = lit "--capture")) as [E|N1].
  { left. exists handle_capture. split; [exact E|]. rewrite E. reflexivity. }
  destruct (bool_decide_reflect (c = lit "--gps")) as [E|N2].
  { left. exists handle_gps. split; [exact E|]. rewrite E. reflexivity. }
  destruct (bool_decide_reflect (c = lit "--stream-start")) as [E|N3].
  { left. exists handle_stream_start. split; [exact E|]. rewrite E.
    reflexivity. }
  destruct (bool_decide_reflect (c = lit "--tone-send")) as [E|N4].
  { left. exists handle_tone_send. split; [exact E|]. rewrite E.
    reflexivity. }
  right. split; [intros h; destruct h; assumption|].
  destruct (bool_decide_reflect (c = lit "--help")); [left | right];
    reflexivity.
Qed.

(** X20: what [dispatch_command] itself does with the table of the
    program, for every command.  Without a command, NULL or empty, it
    warns and prints the usage.  For [--capture], [--gps],
    [--stream-start] and [--tone-send] it logs the dispatch and then calls
    the handler registered under that name, once and as its last step,
    with the arguments it was given.  For [--help] it prints the usage,
    and for every other command it warns about that command and prints the
    usage.  What the called handler does is not part of the statement. *)
Theorem dispatch_command_runs_registered_handlers
        (c : list ascii) (argc : Z) (argv : list (list ascii)) :
  dispatch_command None argc argv = Returns [WarnNoCommand; PrintUsage] /\
  dispatch_command (Some []) argc argv =
    Returns [WarnNoCommand; PrintUsage] /\
  dispatch_command (Some (lit "--capture")) argc argv =
    Returns [InfoDispatching (lit "--capture");
             Execute handle_capture argc argv] /\
  dispatch_command (Some (lit "--gps")) argc argv =
    Returns [InfoDispatching (lit "--gps"); Execute handle_gps argc argv] /\
  dispatch_command (Some (lit "--stream-start")) argc argv =
    Returns [InfoDispatching (lit "--stream-start");
             Execute handle_stream_start argc argv] /\
  dispatch_command (Some (lit "--tone-send")) argc argv =
    Returns [InfoDispatching (lit "--tone-send");
             Execute handle_tone_send argc argv] /\
  dispatch_command (Some (lit "--help")) argc argv = Returns [PrintUsage] /\
  (c <> [] ->
   c ∉ [lit "--capture"; lit "--gps"; lit "--stream-start";
        lit "--tone-send"; lit "--help"] ->
   dispatch_command (Some c) argc argv =
     Returns [WarnUnknown c; PrintUsage]).
Proof.
  do 7 (split; [reflexivity|]).
  intros Hne Hnot. destruct c as [|c0 r]; [congruence|].
  change (dispatch_command (Some (c0 :: r)) argc argv)
    with (dispatch_in commands (c0 :: r) argc argv).
  unfold commands. cbn [dispatch_in name execute]. unfold same_string.
  repeat match goal with
         | |- context [bool_decide (?x = ?y)] =>
             destruct (bool_decide_reflect (x = y)) as [E|_];
             [exfalso; apply Hnot; rewrite E;
              repeat first [apply list_elem_of_here
                           | apply list_elem_of_further]|]
         end.
  reflexivity.
Qed.

Lemma dispatch_command_runs_registered_handlers_witness :
  dispatch_command (Some (lit "--reboot")) 2 [lit "--reboot"; lit "now"] =
    Returns [WarnUnknown (lit "--reboot"); PrintUsage].
Proof.
  apply (dispatch_command_runs_registered_handlers
           (lit "--reboot") 2 [lit "--reboot"; lit "now"]).
  - discriminate.
  - intros H. apply list_elem_of_In in H. cbn in H.
    repeat destruct H as [H|H]; discriminate || contradiction.
Defined.

End CommandsFacts.

(** ** Instances of the bounds lemmas and of the frame lemma *)

Section Instances.
Import BitStream Nmea.

Lemma bit_parser_read_rejects_witness :
  bit_parser_read (mkBitParser [165; 60] 16 12) 5
    = Returns (0, mkBitParser [165; 60] 16 12).
Proof.
  apply (bit_parser_read_rejects (mkBitParser [165; 60] 16 12) 5).
  - cbn. lia.
  - lia.
  - right. right. unfold SIZE_MAX. cbn. lia.
Defined.

Lemma bit_parser_skip_no_wrap_witness :
  bit_pos (bit_parser_skip (mkBitParser [165; 60] 16 12) 9) =
    if bit_pos (mkBitParser [165; 60] 16 12) + 9
         <=? bit_length (mkBitParser [165; 60] 16 12)
    then bit_pos (mkBitParser [165; 60] 16 12) + 9
    else bit_length (mkBitParser [165; 60] 16 12).
Proof.
  apply (bit_parser_skip_no_wrap (mkBitParser [165; 60] 16 12) 9).
  - cbn. lia.
  - lia.
  - unfold SIZE_MAX. cbn. lia.
Defined.

Lemma frame_when_no_field_is_empty_witness :
  (sentence_fields (lit "$GPGGA,123519,4807.038,N*27") !! 1%nat = None ->
   time_utc (mk_nmea_info true 2 9 (Dlit 0) (Dlit 0) (lit "123519"))
     = time_utc (mk_nmea_info true 2 9 (Dlit 0) (Dlit 0) (lit "000000"))) /\
  (sentence_fields (lit "$GPGGA,123519,4807.038,N*27") !! 2%nat = None ->
   has_fix (mk_nmea_info true 2 9 (Dlit 0) (Dlit 0) (lit "123519"))
     = has_fix (mk_nmea_info true 2 9 (Dlit 0) (Dlit 0) (lit "000000"))) /\
  (sentence_fields (lit "$GPGGA,123519,4807.038,N*27") !! 5%nat = None ->
   lat_deg (mk_nmea_info true 2 9 (Dlit 0) (Dlit 0) (lit "123519"))
     = lat_deg (mk_nmea_info true 2 9 (Dlit 0) (Dlit 0) (lit "000000")) /\
   lon_deg (mk_nmea_info true 2 9 (Dlit 0) (Dlit 0) (lit "123519"))
     = lon_deg (mk_nmea_info true 2 9 (Dlit 0) (Dlit 0) (lit "000000"))) /\
  (sentence_fields (lit "$GPGGA,123519,4807.038,N*27") !! 6%nat = None ->
   fix_quality (mk_nmea_info true 2 9 (Dlit 0) (Dlit 0) (lit "123519"))
     = fix_quality (mk_nmea_info true 2 9 (Dlit 0) (Dlit 0) (lit "000000")))
  /\
  (sentence_fields (lit "$GPGGA,123519,4807.038,N*27") !! 7%nat = None ->
   sats (mk_nmea_info true 2 9 (Dlit 0) (Dlit 0) (lit "123519"))
     = sats (mk_nmea_info true 2 9 (Dlit 0) (Dlit 0) (lit "000000"))).
Proof.
  apply (frame_when_no_field_is_empty
           (lit "$GPGGA,123519,4807.038,N*27")
           (mk_nmea_info true 2 9 (Dlit 0) (Dlit 0) (lit "000000"))).
  - vm_compute. reflexivity.
  - cbn. lia.
  - repeat constructor; discriminate.
  - vm_compute. reflexivity.
Defined.

End Instances.

(** ** The program *)

Section MainFacts.
Import Nmea RingQueue Commands Main.

Lemma main_queue_init heap :
  (List.length heap < 10)%nat /\
  queue_init (Some main_queue) 10 heap = (false, Some main_queue) \/
  (10 <= List.length heap)%nat /\
  exists s, queue_init (Some main_queue) 10 heap = (true, Some s) /\
            holds s [] /\ capacity s = 10.
Proof.
  destruct (queue_init (Some main_queue) 10 heap) as [ok q] eqn:Hinit.
  pose proof Hinit as Hinit'. revert Hinit'.
  unfold queue_init, malloc_items. cbn [Z.eqb].
  change (size_t (sizeof_QueueItem * 10)) with (sizeof_QueueItem * 10).
  unfold sizeof_QueueItem at 1 2.
  destruct (Z.ltb_spec (264 * Z.of_nat (List.length heap)) (264 * 10));
    intros [= <- <-]; [left | right]; (split; [lia|]); [reflexivity|].
  eexists. split; [reflexivity|].
  apply (queue_init_holds main_queue 10 heap);
    [unfold SIZE_MAX; lia | unfold SIZE_MAX, sizeof_QueueItem; lia
     | exact Hinit].
Qed.

(** X24: the steps of [main] itself, around the call of the dispatched
    handler, whose body is left open.  [main] returns [EXIT_FAILURE] at
    once when the queue of 10 items cannot be allocated, and after the
    warning and the usage when no command is given.  Otherwise it hands
    [argv[1]] and the arguments from there on to [dispatch_command]; if
    the handler that this calls comes back, [main] enqueues its sample
    item, gets that same item back from the dequeue, and returns
    [EXIT_SUCCESS]; if it does not come back, [main] does not return
    either.  Whenever [main] returns and the queue was allocated, the
    queue has been destroyed: no array is left, and all counters are 0. *)
Theorem main_around_the_dispatch (call : handler_calls)
        (heap : list QueueItem) (junk : QueueItem)
        (argv : list (list ascii)) :
  ((forall h, argv !! 1%nat = Some (command_name h) ->
      call h (Z.of_nat (List.length argv) - 1) (List.tl argv)
        = Returns tt) ->
   exists r,
     main call heap junk argv = Returns r /\
     (exit_status r = EXIT_SUCCESS \/ exit_status r = EXIT_FAILURE) /\
     (exit_status r = EXIT_SUCCESS <->
      (10 <= List.length heap)%nat /\ (2 <= List.length argv)%nat) /\
     ((List.length heap < 10)%nat ->
      effects r = [] /\ queue_at_exit r = Some main_queue) /\
     ((10 <= List.length heap)%nat -> (List.length argv < 2)%nat ->
      effects r = [WarnNoCommand; PrintUsage]) /\
     ((10 <= List.length heap)%nat -> (2 <= List.length argv)%nat ->
      dispatch_command (argv !! 1%nat) (Z.of_nat (List.length argv) - 1)
                       (List.tl argv) = Returns (effects r) /\
      out_item_at_exit r = sample_item) /\
     ((10 <= List.length heap)%nat ->
      queue_at_exit r = Some (mkQueue None 0 0 0 0))) /\
  (forall h,
     (10 <= List.length heap)%nat ->
     argv !! 1%nat = Some (command_name h) ->
     call h (Z.of_nat (List.length argv) - 1) (List.tl argv) = Undefined ->
     main call heap junk argv = Undefined).
Proof.
  split.
  - intros Hcall. unfold main.
    destruct (main_queue_init heap)
      as [(Hlt & ->) | (H10 & s & -> & Hh & Hc)].
    { eexists. split; [reflexivity|]. cbn.
      unfold EXIT_FAILURE, EXIT_SUCCESS.
      split; [right; reflexivity|].
      split; [split; [discriminate | lia]|].
      split; [auto|]. repeat split; lia. }
    assert (Hdestroy : forall s' l, holds s' l ->
              queue_destroy (Some s') = Some (mkQueue None 0 0 0 0)).
    { intros s' l (_ & _ & _ & _ & _ & a & Ha & _). unfold queue_destroy.
      rewrite Ha. reflexivity. }
    destruct (Z.ltb_spec (Z.of_nat (List.length argv)) 2).
    { eexists. split; [reflexivity|]. cbn.
      unfold EXIT_FAILURE, EXIT_SUCCESS.
      split; [right; reflexivity|].
      split; [split; [discriminate | lia]|].
      split; [lia|]. split; [reflexivity|]. split; [lia|].
      intros _. apply (Hdestroy s []), Hh. }
    assert (Hdone : exists done,
              dispatch_command (argv !! 1%nat)
                (Z.of_nat (List.length argv) - 1) (List.tl argv)
                = Returns done /\
              perform call done = Returns tt).
    { destruct (argv !! 1%nat) as [[|c0 r]|] eqn:E;
        try (eexists; split; reflexivity).
      change (dispatch_command (Some (c0 :: r))
                (Z.of_nat (List.length argv) - 1) (List.tl argv))
        with (dispatch_in commands (c0 :: r)
                (Z.of_nat (List.length argv) - 1) (List.tl argv)).
      destruct (dispatch_in_commands (c0 :: r)
                  (Z.of_nat (List.length argv) - 1) (List.tl argv))
        as [(h0 & Hname & ->) | (_ & [-> | ->])];
        (eexists; split; [reflexivity|]); try reflexivity.
      cbn [perform]. rewrite Hcall by (rewrite Hname; reflexivity).
      reflexivity. }
    destruct Hdone as (done & -> & ->).
    destruct (queue_enqueue_holds s [] sample_item Hh)
      as (s1 & -> & Hc1 & H1).
    rewrite Hc in *. cbn [List.length Z.of_nat Z.ltb Z.compare app] in H1.
    pose proof (queue_dequeue_holds s1 [sample_item] junk H1)
      as (s2 & -> & Hc2 & H2).
    eexists. split; [reflexivity|]. cbn.
    split; [left; reflexivity|].
    split; [split; [lia | reflexivity]|]. split; [lia|]. split; [lia|].
    split; [split; reflexivity|].
    intros _. apply (Hdestroy s2 []), H2.
  - intros h H10 Hcmd Hcall. unfold main.
    destruct (main_queue_init heap)
      as [(Hlt & _) | (_ & s & -> & _)]; [lia|].
    pose proof (lookup_lt_Some _ _ _ Hcmd) as Hlen.
    destruct (Z.ltb_spec (Z.of_nat (List.length argv)) 2); [lia|].
    rewrite Hcmd.
    assert (Hd : dispatch_command (Some (command_name h))
                   (Z.of_nat (List.length argv) - 1) (List.tl argv) =
                 Returns [InfoDispatching (command_name h);
                          Execute h (Z.of_nat (List.length argv) - 1)
                                  (List.tl argv)])
      by (destruct h; reflexivity).
    rewrite Hd. cbn [perform]. rewrite Hcall. reflexivity.
Qed.

Lemma main_around_the_dispatch_witness :
  exists r,
    main (fun _ _ _ => Returns tt) (replicate 10 (demo_item 9))
         (demo_item 0) [lit "pacrf"; lit "--gps"] = Returns r /\
    exit_status r = EXIT_SUCCESS /\
    effects r = [InfoDispatching (lit "--gps");
                 Execute handle_gps 1 [lit "--gps"]] /\
    out_item_at_exit r = sample_item /\
    queue_at_exit r = Some (mkQueue None 0 0 0 0).
Proof.
  destruct (main_around_the_dispatch
              (fun _ _ _ => Returns tt) (replicate 10 (demo_item 9))
              (demo_item 0) [lit "pacrf"; lit "--gps"]) as [Hreturns _].
  destruct Hreturns as (r & Hmain & _ & Hexit & _ & _ & Hdisp & Hq).
  { intros h _. reflexivity. }
  exists r. split; [exact Hmain|].
  split; [apply Hexit; cbn; lia|].
  destruct Hdisp as [Hd Hout]; [cbn; lia | cbn; lia |].
  split; [injection Hd as <-; reflexivity|].
  split; [exact Hout|]. apply Hq. cbn. lia.
Defined.

End MainFacts.
